(** * Model selection with probabilistic PCA and Factor Analysis

    A shallow embedding of the notebook
    [Model-selection-with-Probabilistic-PCA-and-Factor-Analysis-(FA).ipynb]:
    the data cell, the score computer, the shrinkage baselines and the main
    loop.  NumPy scalars of dtype float64 are Rocq's binary64 floats; arrays
    are lists; the calls into NumPy's generator, SciPy and scikit-learn are
    parameters of the development. *)

From Stdlib Require Import ZArith List Floats Lia Bool String.
From Stdlib Require Import DecimalString DecimalZ.
From Stdlib Require DecimalFacts.
From stdpp Require Import base list.
Import ListNotations.

Set Warnings "-inexact-float".
Open Scope Z_scope.

(** ** Python exceptions and results *)

(** An exception is identified by its class name. *)
Definition Exn := string.

Inductive result (A : Type) : Type :=
| Ok (a : A)
| Raise (e : Exn).
Arguments Ok {A} a.
Arguments Raise {A} e.

Definition ValueError : Exn := "ValueError"%string.
Definition IndexError : Exn := "IndexError"%string.
Definition TypeError : Exn := "TypeError"%string.
Definition NameError : Exn := "NameError"%string.
Definition ZeroDivisionError : Exn := "ZeroDivisionError"%string.

(** ** float64 comparisons *)

Module F64.

(** [x != x] holds exactly for NaN ([npy_isnan]). *)
Definition isnan (x : float) : bool := negb (PrimFloat.eqb x x).

(** The C test [!(x <= y)], true when [x > y] and when either is NaN. *)
Definition not_le (x y : float) : bool := negb (PrimFloat.leb x y).

(** The comparison the primitive tests are specified by. *)
Definition cmp (x y : float) : option comparison :=
  SFcompare (Prim2SF x) (Prim2SF y).

End F64.

(** ** NumPy routines the notebook's own logic depends on *)

(** [np.arange(start, stop, step)] on Python ints: [ceil((stop-start)/step)]
    values [start + i*step], none when that count is not positive; a zero
    step raises. *)
Definition arange_len (start stop step : Z) : Z :=
  Z.max 0 (- ((start - stop) / step)).

Definition np_arange (start stop step : Z) : result (list Z) :=
  if step =? 0 then Raise ZeroDivisionError
  else Ok (map (fun i => start + Z.of_nat i * step)
               (seq 0 (Z.to_nat (arange_len start stop step)))).

(** [np.argmax] on a one-dimensional float64 array, as NumPy's
    [DOUBLE_argmax] loop: the running maximum [mp] starts at element 0 and
    is replaced by a later element [x] when [!(x <= mp)]; a NaN is maximal
    and stops the scan.  [i] is the index of [x], [mi] the index of [mp]. *)
Fixpoint argmax_loop (l : list float) (i : nat) (mp : float) (mi : nat) : nat :=
  match l with
  | [] => mi
  | x :: l' =>
      if F64.not_le x mp
      then if F64.isnan x then i else argmax_loop l' (S i) x i
      else argmax_loop l' (S i) mp mi
  end.

Definition np_argmax (a : list float) : result nat :=
  match a with
  | [] => Raise ValueError
  | x :: l => Ok (if F64.isnan x then 0%nat else argmax_loop l 1 x 0)
  end.

(** What the scan returns: an index [r] whose element [s] beats every
    earlier element in the sense of the C test, with no NaN before it, and
    dominates the whole array unless [s] itself is a NaN. *)
Definition first_maximum (a : list float) (r : nat) : Prop :=
  exists s, a !! r = Some s /\
    (forall k x, (k < r)%nat -> a !! k = Some x ->
       F64.isnan x = false /\ F64.not_le s x = true) /\
    (F64.isnan s = false -> forall k x, a !! k = Some x -> PrimFloat.leb x s = true).

(** Indexing a one-dimensional array with a non-negative index. *)
Definition getitem {A} (a : list A) (i : nat) : result A :=
  match a !! i with
  | Some x => Ok x
  | None => Raise IndexError
  end.


(** *** Arrays *)

Abbreviation vector := (list float).
Abbreviation matrix := (list (list float)).

(** An [ndarray] object: float64 of one or two dimensions, or a
    one-dimensional integer array.  A two-dimensional array is the list of
    its rows, so its column count is read off the rows. *)
Inductive ndarray : Type :=
| Nd1 (v : vector)
| Nd2 (rows : matrix)
| NdI (v : list Z).

Definition float_of_nat (n : nat) : float :=
  PrimFloat.of_uint63 (Uint63.of_Z (Z.of_nat n)).

(** All the results of a list, or the first exception among them. *)
Fixpoint all_ok {C} (l : list (result C)) : result (list C) :=
  match l with
  | [] => Ok []
  | r :: l' =>
      match r, all_ok l' with
      | Ok c, Ok cs => Ok (c :: cs)
      | Raise e, _ => Raise e
      | _, Raise e => Raise e
      end
  end.

(** NumPy broadcasting of a binary operation along one axis: equal lengths
    pair up, a length-1 operand is stretched, anything else raises. *)
Definition broadcast {A B C} (f : A -> B -> result C) (u : list A) (v : list B)
  : result (list C) :=
  match u, v with
  | [a], _ => all_ok (map (f a) v)
  | _, [b] => all_ok (map (fun a => f a b) u)
  | _, _ =>
      if (length u =? length v)%nat then all_ok (zip_with f u v)
      else Raise ValueError
  end.

Definition elementwise1 (op : float -> float -> float) (u v : vector)
  : result vector :=
  broadcast (fun x y => Ok (op x y)) u v.

(** [A op B] for two-dimensional operands. *)
Definition elementwise2 (op : float -> float -> float) (a b : matrix)
  : result matrix :=
  broadcast (elementwise1 op) a b.

(** [A op v] for a two-dimensional [A] and a one-dimensional [v]: [v] is
    treated as a single row and stretched along the first axis. *)
Definition elementwise21 (op : float -> float -> float) (a : matrix) (v : vector)
  : result matrix :=
  broadcast (elementwise1 op) a [v].

(** [s * A] and [v + s] for a Python float [s]. *)
Definition scalar_mul2 (s : float) (a : matrix) : matrix :=
  map (map (PrimFloat.mul s)) a.
Definition scalar_mul1 (s : float) (v : vector) : vector :=
  map (PrimFloat.mul s) v.
Definition add_scalar1 (v : vector) (s : float) : vector :=
  map (fun x => PrimFloat.add x s) v.

(** [A[:, :k]] for [k >= 0] and [A.T]. *)
Definition slice_cols (a : matrix) (k : Z) : matrix :=
  map (take (Z.to_nat k)) a.

Fixpoint transpose_aux (ncols : nat) (a : matrix) : matrix :=
  match ncols with
  | O => []
  | S n => transpose_aux n a ++ [omap (fun r => r !! n) a]
  end.

Definition transpose (a : matrix) : matrix :=
  transpose_aux (length (default [] (head a))) a.


(** *** Python's [min], [max] and [%d] *)

(** The builtin [min]/[max] keep the first item and replace it by a later
    one that compares strictly below/above it. *)
Definition py_fold {A} (better : A -> A -> bool) (l : list A) : result A :=
  match l with
  | [] => Raise ValueError
  | x :: l' => Ok (fold_left (fun cur item => if better item cur then item else cur) l' x)
  end.

Definition py_min_float : list float -> result float := py_fold PrimFloat.ltb.
Definition py_max_float : list float -> result float := py_fold (fun a b => PrimFloat.ltb b a).
Definition py_min_int : list Z -> result Z := py_fold Z.ltb.
Definition py_max_int : list Z -> result Z := py_fold Z.gtb.

Definition format_d (z : Z) : string := NilZero.string_of_int (Z.to_int z).

(** ** scikit-learn estimators as the notebook configures them *)

(** The [n_components] attribute: [None], an integer or ['mle']. *)
Inductive NComponents : Type :=
| NC_None
| NC_int (n : Z)
| NC_mle.

Inductive Estimator : Type :=
| PCA (svd_solver : string) (n_components : NComponents)
| FactorAnalysis (n_components : NComponents)
| ShrunkCovariance (shrinkage : float)
| LedoitWolf.

(** [est.n_components = n] *)
Definition set_n_components (est : Estimator) (n : NComponents) : Estimator :=
  match est with
  | PCA solver _ => PCA solver n
  | FactorAnalysis _ => FactorAnalysis n
  | other => other
  end.

(** ** The external libraries

    What the notebook calls and does not define.  A call that receives a
    dataset returns, next to its result, the contents of that array after
    the call, so that a callee writing into its argument is representable.
    The generator's methods return the generator's next state. *)
Class Library : Type := {
  RandomState : Type;
  RandomState_init : Z -> RandomState;
  mt_randn : RandomState -> Z -> Z -> result (matrix * RandomState);
  mt_rand : RandomState -> Z -> result (vector * RandomState);
  linalg_svd : matrix -> result (matrix * vector * matrix);
  np_dot : matrix -> matrix -> result matrix;
  np_mean : vector -> float;
  np_power : float -> float -> float;
  cross_val_score : Estimator -> ndarray -> result (vector * ndarray);
  GridSearchCV_fit :
    Estimator -> string -> vector -> ndarray -> result (Estimator * ndarray);
  PCA_fit : Estimator -> ndarray -> result (Z * ndarray)
}.

(** The contract of scikit-learn's default [copy=True]: fitting and scoring
    leave the caller's array as it was. *)
Class ReadOnly (L : Library) : Prop := {
  cross_val_score_readonly :
    forall est a s a', cross_val_score est a = Ok (s, a') -> a' = a;
  GridSearchCV_fit_readonly :
    forall est p g a b a', GridSearchCV_fit est p g a = Ok (b, a') -> a' = a;
  PCA_fit_readonly :
    forall est a n a', PCA_fit est a = Ok (n, a') -> a' = a
}.


(** ** The interpreter state

    Objects live in a store and names hold references to them: the arrays
    bound at top level and the generator [rng], which every draw advances.
    [stdout] collects the printed lines. *)

Definition loc := nat.
Bind Scope nat_scope with loc.

Section Model.
Context {L : Library}.

Inductive Obj : Type :=
| ONd (a : ndarray)
| ORng (s : RandomState).

Record State : Type := mkState {
  heap : list Obj;
  stdout : list string
}.

(** State and exceptions: a raised exception abandons the run. *)
Definition M (A : Type) : Type := State -> result (A * State).

Definition ret {A} (a : A) : M A := fun st => Ok (a, st).

Definition bind {A B} (m : M A) (k : A -> M B) : M B :=
  fun st =>
    match m st with
    | Ok (a, st') => k a st'
    | Raise e => Raise e
    end.

Definition lift {A} (r : result A) : M A :=
  fun st =>
    match r with
    | Ok a => Ok (a, st)
    | Raise e => Raise e
    end.

Definition raise {A} (e : Exn) : M A := fun _ => Raise e.

Declare Scope py_scope.
Delimit Scope py_scope with py.
Notation "'let*' p ':=' m 'in' k" := (bind m (fun p => k))
  (at level 10, p pattern, m at level 100, k at level 200) : py_scope.
Notation "m ';;' k" := (bind m (fun _ => k))
  (at level 100, k at level 200, right associativity) : py_scope.
Open Scope py_scope.

Definition alloc (o : Obj) : M loc :=
  fun st => Ok (length (heap st), mkState (heap st ++ [o]) (stdout st)).

Definition read (l : loc) : M Obj :=
  fun st =>
    match heap st !! l with
    | Some o => Ok (o, st)
    | None => Raise NameError
    end.

(** An in-place update of the object at [l].  It is only ever run on a
    reference that has just been read, so the slot exists. *)
Definition write (l : loc) (o : Obj) : M unit :=
  fun st => Ok (tt, mkState (<[l := o]> (heap st)) (stdout st)).

Definition print (line : string) : M unit :=
  fun st => Ok (tt, mkState (heap st) (stdout st ++ [line])).

Definition read_nd (l : loc) : M ndarray :=
  let* o := read l in
  match o with ONd a => ret a | _ => raise TypeError end.

Definition read_nd1 (l : loc) : M vector :=
  let* a := read_nd l in
  match a with Nd1 v => ret v | _ => raise TypeError end.

Definition read_nd2 (l : loc) : M matrix :=
  let* a := read_nd l in
  match a with Nd2 rows => ret rows | _ => raise TypeError end.

Definition read_ndI (l : loc) : M (list Z) :=
  let* a := read_nd l in
  match a with NdI v => ret v | _ => raise TypeError end.

Definition read_rng (l : loc) : M RandomState :=
  let* o := read l in
  match o with ORng s => ret s | _ => raise TypeError end.

(** *** Calls into the libraries *)

(** [rng.randn(d0, d1)] and [rng.rand(d0)] advance the generator object. *)
Definition rng_randn (rng : loc) (d0 d1 : Z) : M matrix :=
  let* s := read_rng rng in
  let* (a, s') := lift (mt_randn s d0 d1) in
  write rng (ORng s') ;;
  ret a.

Definition rng_rand (rng : loc) (d0 : Z) : M vector :=
  let* s := read_rng rng in
  let* (v, s') := lift (mt_rand s d0) in
  write rng (ORng s') ;;
  ret v.

(** A call that is handed the array object at [X]. *)
Definition call_with_array {A} (f : ndarray -> result (A * ndarray)) (X : loc)
  : M A :=
  let* a := read_nd X in
  let* (r, a') := lift (f a) in
  write X (ONd a') ;;
  ret r.

Definition call_cross_val_score (est : Estimator) (X : loc) : M vector :=
  call_with_array (cross_val_score est) X.

(** [np.linspace(start, stop, num)] with the default [endpoint=True], and
    [np.logspace(start, stop, num)] = [10 ** linspace]. *)
Definition np_linspace (start stop : float) (num : nat) : vector :=
  match num with
  | O => []
  | 1%nat => [start]
  | S div =>
      let step := PrimFloat.div (PrimFloat.sub stop start) (float_of_nat div) in
      map (fun i => PrimFloat.add (PrimFloat.mul (float_of_nat i) step) start)
          (seq 0 div) ++ [stop]
  end.

Definition np_logspace (start stop : float) (num : nat) : vector :=
  map (np_power 10%float) (np_linspace start stop num).


(** ** Cell [3]: create the data *)

Definition n_samples : Z := 1000.
Definition n_features : Z := 50.
Definition rank : Z := 10.
Definition sigma : float := 1.

(** The names the cell binds. *)
Record Data : Type := mkData {
  rng : loc;
  U : loc;
  X : loc;
  X_homo : loc;
  sigmas : loc;
  X_hetero : loc
}.

Definition create_data : M Data :=
  (* rng = np.random.RandomState(42) *)
  let* rng := alloc (ORng (RandomState_init 42)) in
  (* U, _, _ = linalg.svd(rng.randn(n_features, n_features)) *)
  let* A := rng_randn rng n_features n_features in
  let* (Uv, _, _) := lift (linalg_svd A) in
  let* U := alloc (ONd (Nd2 Uv)) in
  (* X = np.dot(rng.randn(n_samples, rank), U[:, :rank].T) *)
  let* B := rng_randn rng n_samples rank in
  let* Uv := read_nd2 U in
  let* Xv := lift (np_dot B (transpose (slice_cols Uv rank))) in
  let* X := alloc (ONd (Nd2 Xv)) in
  (* X_homo = X + sigma * rng.randn(n_samples, n_features) *)
  let* N := rng_randn rng n_samples n_features in
  let* Xv := read_nd2 X in
  let* H := lift (elementwise2 PrimFloat.add Xv (scalar_mul2 sigma N)) in
  let* X_homo := alloc (ONd (Nd2 H)) in
  (* sigmas = sigma * rng.rand(n_features) + sigma / 2. *)
  let* u := rng_rand rng n_features in
  let* sigmas :=
    alloc (ONd (Nd1 (add_scalar1 (scalar_mul1 sigma u) (PrimFloat.div sigma 2)))) in
  (* X_hetero = X + rng.randn(n_samples, n_features) * sigmas *)
  let* N := rng_randn rng n_samples n_features in
  let* sv := read_nd1 sigmas in
  let* P := lift (elementwise21 PrimFloat.mul N sv) in
  let* Xv := read_nd2 X in
  let* T := lift (elementwise2 PrimFloat.add Xv P) in
  let* X_hetero := alloc (ONd (Nd2 T)) in
  ret (mkData rng U X X_homo sigmas X_hetero).

(** ** Cell [4]: fit the models *)

(** [n_components = np.arange(0, n_features, 5)] *)
Definition create_grid : M loc :=
  let* g := lift (np_arange 0 n_features 5) in
  alloc (ONd (NdI g)).

(** [for x in l: body] with the loop's variables threaded through. *)
Fixpoint for_each {A S} (l : list A) (body : A -> S -> M S) (s : S) : M S :=
  match l with
  | [] => ret s
  | x :: l' => let* s' := body x s in for_each l' body s'
  end.

(** One pass of the loop of [compute_scores]: both estimators get
    [n_components = n], are cross-validated on [X], and the means of the
    fold scores are appended. *)
Definition score_step (X : loc) (n : Z)
    (st : Estimator * Estimator * list float * list float)
  : M (Estimator * Estimator * list float * list float) :=
  let '(pca, fa, pca_scores, fa_scores) := st in
  let pca := set_n_components pca (NC_int n) in
  let fa := set_n_components fa (NC_int n) in
  let* s := call_cross_val_score pca X in
  let pca_scores := pca_scores ++ [np_mean s] in
  let* s := call_cross_val_score fa X in
  let fa_scores := fa_scores ++ [np_mean s] in
  ret (pca, fa, pca_scores, fa_scores).

(** [compute_scores(X)]; [n_components] is the global it reads. *)
Definition compute_scores (n_components : loc) (X : loc)
  : M (list float * list float) :=
  let pca := PCA "full" NC_None in
  let fa := FactorAnalysis NC_None in
  let* grid := read_ndI n_components in
  let* (_, _, pca_scores, fa_scores) :=
    for_each grid (score_step X) (pca, fa, [], []) in
  ret (pca_scores, fa_scores).

(** [shrunk_cov_score(X)]; [ShrunkCovariance()] has [shrinkage=0.1]. *)
Definition shrinkages : vector := np_logspace (-2) 0 30.

Definition shrunk_cov_score (X : loc) : M float :=
  let* best :=
    call_with_array
      (GridSearchCV_fit (ShrunkCovariance 0.1) "shrinkage" shrinkages) X in
  let* s := call_cross_val_score best X in
  ret (np_mean s).

(** [lw_score(X)] *)
Definition lw_score (X : loc) : M float :=
  let* s := call_cross_val_score LedoitWolf X in
  ret (np_mean s).


(** ** Cell [5]: selection and chart traces *)

(** The [x] of a trace is the grid array itself or a literal list. *)
Inductive XData : Type :=
| XArray (l : loc)
| XList (v : list Z).

(** [go.Scatter(x=, y=, name=, mode='lines', line=dict(color=, dash=))] *)
Record Scatter : Type := mkScatter {
  sc_x : XData;
  sc_y : list float;
  sc_name : string;
  sc_color : string;
  sc_dash : option string
}.

(** What one pass of the main loop binds. *)
Record Selection : Type := mkSelection {
  pca_scores : list float;
  fa_scores : list float;
  n_components_pca : Z;
  n_components_fa : Z;
  n_components_pca_mle : Z
}.

(** [n_components[np.argmax(scores)]] *)
Definition best_by_cv (n_components : loc) (scores : list float) : M Z :=
  let* i := lift (np_argmax scores) in
  let* grid := read_ndI n_components in
  lift (getitem grid i).

(** [data[i].append(trace)] *)
Definition data_append (data : list (list Scatter)) (i : nat) (t : Scatter)
  : M (list (list Scatter)) :=
  match data !! i with
  | Some row => ret (<[i := row ++ [t]]> data)
  | None => raise IndexError
  end.

(** [y=[min(pca_scores)-1, max(fa_scores)+1]], the extent of each
    vertical marker. *)
Definition marker_range (pca_scores fa_scores : list float) : M (list float) :=
  let* lo := lift (py_min_float pca_scores) in
  let* hi := lift (py_max_float fa_scores) in
  ret [PrimFloat.sub lo 1; PrimFloat.add hi 1].

(** [x=[min(n_components), max(n_components)]], the extent of each
    baseline. *)
Definition grid_range (n_components : loc) : M XData :=
  let* grid := read_ndI n_components in
  let* lo := lift (py_min_int grid) in
  let* hi := lift (py_max_int grid) in
  ret (XList [lo; hi]).

(** The body of [for X, title in ...]; [data] and [i] are the globals the
    loop updates. *)
Definition analyse (n_components : loc) (X : loc) (title : string)
    (acc : list (list Scatter) * nat * list Selection)
  : M (list (list Scatter) * nat * list Selection) :=
  let '(data, i, sel) := acc in
  let* (pca_scores, fa_scores) := compute_scores n_components X in
  let* n_components_pca := best_by_cv n_components pca_scores in
  let* n_components_fa := best_by_cv n_components fa_scores in
  (* pca = PCA(svd_solver='full', n_components='mle'); pca.fit(X) *)
  let* n_components_pca_mle :=
    call_with_array (PCA_fit (PCA "full" NC_mle)) X in
  print title ;;
  print ("best n_components by PCA CV = " ++ format_d n_components_pca)%string ;;
  print ("best n_components by FactorAnalysis CV = " ++ format_d n_components_fa)%string ;;
  print ("best n_components by PCA MLE = " ++ format_d n_components_pca_mle)%string ;;
  let* data := data_append data i
    (mkScatter (XArray n_components) pca_scores "PCA scores" "blue" None) in
  let* data := data_append data i
    (mkScatter (XArray n_components) fa_scores "FA scores" "red" None) in
  let* y := marker_range pca_scores fa_scores in
  let* data := data_append data i
    (mkScatter (XList [rank; rank]) y ("TRUTH: " ++ format_d rank)%string
       "green" (Some "dash"%string)) in
  let* y := marker_range pca_scores fa_scores in
  let* data := data_append data i
    (mkScatter (XList [n_components_pca; n_components_pca]) y
       ("PCA CV: " ++ format_d n_components_pca)%string "blue" (Some "dash"%string)) in
  let* y := marker_range pca_scores fa_scores in
  let* data := data_append data i
    (mkScatter (XList [n_components_fa; n_components_fa]) y
       ("FactorAnalysis CV: " ++ format_d n_components_fa)%string "red" (Some "dash"%string)) in
  let* y := marker_range pca_scores fa_scores in
  let* data := data_append data i
    (mkScatter (XList [n_components_pca_mle; n_components_pca_mle]) y
       ("PCA MLE: " ++ format_d n_components_pca_mle)%string "black" (Some "dash"%string)) in
  (* compare with other covariance estimators *)
  let* s1 := shrunk_cov_score X in
  let* s2 := shrunk_cov_score X in
  let* x := grid_range n_components in
  let* data := data_append data i
    (mkScatter x [s1; s2] "Shrunk Covariance MLE" "violet" (Some "dash"%string)) in
  let* s1 := lw_score X in
  let* s2 := lw_score X in
  let* x := grid_range n_components in
  (* name='LedoitWolf MLE' % n_components_pca_mle: the format has no
     conversion and [n_components_] is a NumPy integer, which [%] takes for
     a mapping, so the name is the format itself *)
  let* data := data_append data i
    (mkScatter x [s1; s2] "LedoitWolf MLE" "orange" (Some "dashdot"%string)) in
  ret (data, S i,
       sel ++ [mkSelection pca_scores fa_scores
                  n_components_pca n_components_fa n_components_pca_mle]).

(** The names bound when the loop has finished. *)
Record Globals : Type := mkGlobals {
  g_data : Data;
  g_n_components : loc;
  g_X : loc;
  g_traces : list (list Scatter);
  g_i : nat;
  g_selected : list Selection
}.

(** [data = [[],[]]; i = 0] and the loop over the two datasets, whose
    target [X] is the global name that cell [3] bound to the signal. *)
Definition main_loop (d : Data) (n_components : loc) : M Globals :=
  let datasets :=
    [(X_homo d, "Homoscedastic Noise"%string);
     (X_hetero d, "Heteroscedastic Noise"%string)] in
  let* (X, data, i, sel) :=
    for_each datasets
      (fun '(X, title) '(_, data, i, sel) =>
         let* (data, i, sel) := analyse n_components X title (data, i, sel) in
         ret (X, data, i, sel))
      (X d, [[]; []], 0%nat, []) in
  ret (mkGlobals d n_components X data i sel).

(** ** Cells [6] and [7]: the two figures *)

Record Figure : Type := mkFigure {
  fig_data : list Scatter;
  fig_title : string;
  fig_xaxis : string;
  fig_yaxis : string
}.

Definition figure (g : Globals) (k : nat) (title : string) : M Figure :=
  let* traces := lift (getitem (g_traces g) k) in
  ret (mkFigure traces title "nb of components" "CV scores").

(** ** The notebook, top to bottom *)

Definition notebook : M (Globals * Figure * Figure) :=
  let* d := create_data in
  let* n_components := create_grid in
  let* g := main_loop d n_components in
  let* fig_homo := figure g 0 "Homoscedastic Noise" in
  let* fig_hetero := figure g 1 "Heteroscedastic Noise" in
  ret (g, fig_homo, fig_hetero).

End Model.

(** ** Vocabulary of the statements *)

(** The grid of cell [4], written out. *)
Definition reference_grid : list Z := [0; 5; 10; 15; 20; 25; 30; 35; 40; 45].

Section Specification.
Context {L : Library}.

(** The four lines one pass of the main loop prints. *)
Definition report (title : string) (s : Selection) : list string :=
  [title;
   ("best n_components by PCA CV = " ++ format_d (n_components_pca s))%string;
   ("best n_components by FactorAnalysis CV = " ++ format_d (n_components_fa s))%string;
   ("best n_components by PCA MLE = " ++ format_d (n_components_pca_mle s))%string].

(** The output stored in the notebook with cell [5]. *)
Definition recorded_stdout : list string :=
  ["Homoscedastic Noise";
   "best n_components by PCA CV = 10";
   "best n_components by FactorAnalysis CV = 10";
   "best n_components by PCA MLE = 10";
   "Heteroscedastic Noise";
   "best n_components by PCA CV = 40";
   "best n_components by FactorAnalysis CV = 10";
   "best n_components by PCA MLE = 38"]%string.

(** [preserves f m]: when [m] returns, the component [f] of the state is
    as it was before. *)
Definition preserves {T A} (f : State -> T) (m : M A) : Prop :=
  forall st a st', m st = Ok (a, st') -> f st' = f st.

(** [scored mk a n s]: [s] is the mean of the fold scores of the estimator
    [mk n] cross-validated on [a]. *)
Definition scored (mk : Z -> Estimator) (a : ndarray) (n : Z) (s : float) : Prop :=
  exists folds, cross_val_score (mk n) a = Ok (folds, a) /\ s = np_mean folds.

Definition pca_with (n : Z) : Estimator := PCA "full" (NC_int n).
Definition fa_with (n : Z) : Estimator := FactorAnalysis (NC_int n).

(** What a computation on the array at [X] comes to: an exception, or a
    value, the array's new contents and the lines printed. *)
Definition Outcome (A : Type) : Type := result (A * ndarray * list string).

Definition effect {A} (X : loc) (o : Outcome A) (st : State) : result (A * State) :=
  match o with
  | Raise e => Raise e
  | Ok (r, a, lines) =>
      Ok (r, mkState (<[X := ONd a]> (heap st)) (stdout st ++ lines))
  end.

(** The part of the store a scoring operation looks at: the grid at [nc]
    and the dataset at [X], two different objects. *)
Definition footprint (grid : list Z) (a : ndarray) (nc X : loc) (h : list Obj) : Prop :=
  nc <> X /\ h !! nc = Some (ONd (NdI grid)) /\ h !! X = Some (ONd a).

(** [determined grid a m]: on every store with that footprint, [m] has one
    and the same outcome. *)
Definition determined {A} (grid : list Z) (a : ndarray) (m : loc -> loc -> M A) : Prop :=
  exists o : Outcome A, forall nc X st,
    footprint grid a nc X (heap st) -> m nc X st = effect X o st.

(** The state [st] after the array at [X] became [a] and [lines] were
    printed. *)
Definition upd (X : loc) (a : ndarray) (lines : list string) (st : State) : State :=
  mkState (<[X := ONd a]> (heap st)) (stdout st ++ lines).

(** Two results, of runs started in [st1] and [st2] on the arrays at [X1]
    and [X2]: they raise the same exception, or return values related by
    [P] and states that differ from [st1] and [st2] in the same way. *)
Definition together (X1 X2 : loc) (st1 st2 : State) {A} (P : A -> A -> Prop)
    (r1 r2 : result (A * State)) : Prop :=
  match r1, r2 with
  | Raise e1, Raise e2 => e1 = e2
  | Ok (x1, s1), Ok (x2, s2) =>
      P x1 x2 /\ exists a lines, s1 = upd X1 a lines st1 /\ s2 = upd X2 a lines st2
  | _, _ => False
  end.

(** What one pass of the main loop adds, as seen from two runs. *)
Definition same_pass (data1 : list (list Scatter)) (i1 : nat) (sel1 : list Selection)
    (data2 : list (list Scatter)) (i2 : nat) (sel2 : list Selection)
    (r1 r2 : list (list Scatter) * nat * list Selection) : Prop :=
  let '(d1, j1, s1) := r1 in
  let '(d2, j2, s2) := r2 in
  exists s, s1 = sel1 ++ [s] /\ s2 = sel2 ++ [s] /\ j1 = S i1 /\ j2 = S i2 /\
    length d1 = length data1 /\ length d2 = length data2.

(** Where the grid and the two datasets sit in a store. *)
Definition layout (grid : list Z) (ah at_ : ndarray) (d : Data) (nc : loc)
    (h : list Obj) : Prop :=
  X_homo d <> X_hetero d /\ X_homo d <> nc /\ X_hetero d <> nc /\
  h !! nc = Some (ONd (NdI grid)) /\
  h !! X_homo d = Some (ONd ah) /\
  h !! X_hetero d = Some (ONd at_).

(** The names cell [3] binds when the store held [n] objects before it,
    and the objects it allocates. *)
Definition data_at (n : nat) : Data :=
  mkData n (n + 1)%nat (n + 2)%nat (n + 3)%nat (n + 4)%nat (n + 5)%nat.

Definition data_objects
    (v : RandomState * matrix * matrix * matrix * vector * matrix) : list Obj :=
  let '(s, u, x, xh, sg, xt) := v in
  [ORng s; ONd (Nd2 u); ONd (Nd2 x); ONd (Nd2 xh); ONd (Nd1 sg); ONd (Nd2 xt)].

(** How the values of cell [3] hang together: the noise of [X_homo] is one
    draw scaled by [sigma]; [sigmas] is [sigma * u + sigma / 2] for the
    uniform draw [u]; the noise of [X_hetero] is a further draw multiplied
    by [sigmas] along the feature axis. *)
Definition synthesized
    (v : RandomState * matrix * matrix * matrix * vector * matrix) : Prop :=
  let '(s, _, x, xh, sg, xt) := v in
  exists s2 n1 s3 u s4 n2 p,
    mt_randn s2 n_samples n_features = Ok (n1, s3) /\
    elementwise2 PrimFloat.add x (scalar_mul2 sigma n1) = Ok xh /\
    mt_rand s3 n_features = Ok (u, s4) /\
    sg = add_scalar1 (scalar_mul1 sigma u) (PrimFloat.div sigma 2) /\
    mt_randn s4 n_samples n_features = Ok (n2, s) /\
    elementwise21 PrimFloat.mul n2 sg = Ok p /\
    elementwise2 PrimFloat.add x p = Ok xt.

(** The two datasets a run of cell [3] leaves behind. *)
Definition datasets_of (r : result (Data * State)) : result (option Obj * option Obj) :=
  match r with
  | Ok (d, st) => Ok (heap st !! X_homo d, heap st !! X_hetero d)
  | Raise e => Raise e
  end.

(** The score sequences and the selected ranks of a run of the notebook,
    one [Selection] per dataset. *)
Definition selections_of (r : result (Globals * Figure * Figure * State))
  : result (list Selection) :=
  match r with
  | Ok (g, _, _, _) => Ok (g_selected g)
  | Raise e => Raise e
  end.

End Specification.

(** ** Vocabulary of the further properties *)

(** The names of the eight traces of a pass, in the order they are
    appended. *)
Definition trace_names (s : Selection) : list string :=
  ["PCA scores"; "FA scores";
   "TRUTH: " ++ format_d rank;
   "PCA CV: " ++ format_d (n_components_pca s);
   "FactorAnalysis CV: " ++ format_d (n_components_fa s);
   "PCA MLE: " ++ format_d (n_components_pca_mle s);
   "Shrunk Covariance MLE"; "LedoitWolf MLE"]%string.

(** The eight traces of a pass, given its selection, the extent [y] of the
    markers and the [x] and [y] of the two baselines. *)
Definition pass_traces (nc : loc) (s : Selection) (y : list float)
    (xs : XData) (vs : list float) (xl : XData) (ws : list float) : list Scatter :=
  [mkScatter (XArray nc) (pca_scores s) "PCA scores" "blue" None;
   mkScatter (XArray nc) (fa_scores s) "FA scores" "red" None;
   mkScatter (XList [rank; rank]) y
     ("TRUTH: " ++ format_d rank)%string "green" (Some "dash"%string);
   mkScatter (XList [n_components_pca s; n_components_pca s]) y
     ("PCA CV: " ++ format_d (n_components_pca s))%string "blue" (Some "dash"%string);
   mkScatter (XList [n_components_fa s; n_components_fa s]) y
     ("FactorAnalysis CV: " ++ format_d (n_components_fa s))%string "red"
     (Some "dash"%string);
   mkScatter (XList [n_components_pca_mle s; n_components_pca_mle s]) y
     ("PCA MLE: " ++ format_d (n_components_pca_mle s))%string "black"
     (Some "dash"%string);
   mkScatter xs vs "Shrunk Covariance MLE" "violet" (Some "dash"%string);
   mkScatter xl ws "LedoitWolf MLE" "orange" (Some "dashdot"%string)].

(** Entry [(i, j)] of a two-dimensional array, and an array of [r] rows of
    [c] entries. *)
Definition entry (m : matrix) (i j : nat) : option float :=
  match m !! i with
  | Some row => row !! j
  | None => None
  end.

Definition shape (m : matrix) (r c : nat) : Prop :=
  length m = r /\ Forall (fun row => length row = c) m.

Section MoreVocabulary.
Context {L : Library}.

(** [v] is the score of [shrunk_cov_score] on [a]: the mean of the fold
    scores of the estimator the grid search selected. *)
Definition shrunk_scored (a : ndarray) (v : float) : Prop :=
  exists best folds,
    GridSearchCV_fit (ShrunkCovariance 0.1) "shrinkage" shrinkages a = Ok (best, a) /\
    cross_val_score best a = Ok (folds, a) /\ v = np_mean folds.

(** [w] is the score of [lw_score] on [a]. *)
Definition lw_scored (a : ndarray) (w : float) : Prop :=
  exists folds, cross_val_score LedoitWolf a = Ok (folds, a) /\ w = np_mean folds.

(** The number of [x] values of a trace: the length of the array it refers
    to, or of its literal list. *)
Definition x_length (h : list Obj) (x : XData) : option nat :=
  match x with
  | XList v => Some (length v)
  | XArray l =>
      match h !! l with
      | Some (ONd (Nd1 v)) => Some (length v)
      | Some (ONd (Nd2 rows)) => Some (length rows)
      | Some (ONd (NdI v)) => Some (length v)
      | _ => None
      end
  end.

End MoreVocabulary.

(** ** A small concrete library

    Stand-ins with the interface of the real calls, used to run the
    definitions: a linear congruential generator, an identity
    decomposition, the row-by-column product, the arithmetic mean, and
    scores that peak at ten components. *)
Module Toy.

Definition next (s : Z) : Z := (s * 1103515245 + 12345) mod 2147483648.

Definition unit_float (s : Z) : float :=
  PrimFloat.div (PrimFloat.of_uint63 (Uint63.of_Z s)) 2147483648.

Fixpoint draw (n : nat) (s : Z) : vector * Z :=
  match n with
  | O => ([], s)
  | S n' =>
      let s1 := next s in
      let '(v, s2) := draw n' s1 in
      (unit_float s1 :: v, s2)
  end.

Fixpoint draw_rows (rows cols : nat) (s : Z) : matrix * Z :=
  match rows with
  | O => ([], s)
  | S r =>
      let '(v, s1) := draw cols s in
      let '(m, s2) := draw_rows r cols s1 in
      (map (fun u => PrimFloat.sub (PrimFloat.mul 2 u) 1) v :: m, s2)
  end.

Definition randn (s : Z) (d0 d1 : Z) : result (matrix * Z) :=
  if (d0 <? 0) || (d1 <? 0) then Raise ValueError
  else Ok (draw_rows (Z.to_nat d0) (Z.to_nat d1) s).

Definition rand (s : Z) (d0 : Z) : result (vector * Z) :=
  if d0 <? 0 then Raise ValueError else Ok (draw (Z.to_nat d0) s).

Definition sum (v : vector) : float := fold_left PrimFloat.add v 0%float.

Definition mean (v : vector) : float :=
  PrimFloat.div (sum v) (float_of_nat (length v)).

Definition dot (a b : matrix) : result matrix :=
  let bt := transpose b in
  if forallb (fun r => (length r =? length b)%nat) a
  then Ok (map (fun r => map (fun c => sum (zip_with PrimFloat.mul r c)) bt) a)
  else Raise ValueError.

Definition n_of (est : Estimator) : Z :=
  match est with
  | PCA _ (NC_int n) | FactorAnalysis (NC_int n) => n
  | _ => 0
  end.

Definition cv (est : Estimator) (a : ndarray) : result (vector * ndarray) :=
  match a with
  | Nd2 (row :: _) =>
      let d := PrimFloat.of_uint63 (Uint63.of_Z (Z.abs (n_of est - 10))) in
      let base := PrimFloat.opp (PrimFloat.mul d d) in
      Ok ([base; PrimFloat.sub base 1; PrimFloat.add base 1], a)
  | _ => Raise ValueError
  end.

Definition grid_search (est : Estimator) (param : string) (g : vector)
    (a : ndarray) : result (Estimator * ndarray) :=
  match est, g with
  | ShrunkCovariance _, s :: _ => Ok (ShrunkCovariance s, a)
  | _, _ => Raise ValueError
  end.

Definition fit (est : Estimator) (a : ndarray) : result (Z * ndarray) :=
  match est, a with
  | PCA _ NC_mle, Nd2 (row :: _) => Ok (Z.of_nat (length row) - 1, a)
  | _, _ => Raise ValueError
  end.

#[export] Instance library : Library := {|
  RandomState := Z;
  RandomState_init := fun seed => seed;
  mt_randn := randn;
  mt_rand := rand;
  linalg_svd := fun a => Ok (a, [], a);
  np_dot := dot;
  np_mean := mean;
  np_power := fun b e => PrimFloat.mul b e;
  cross_val_score := cv;
  GridSearchCV_fit := grid_search;
  PCA_fit := fit
|}.

Definition empty : State := mkState [] [].

(** A store as cell [3] and cell [4] lay it out, with small arrays. *)
Definition names : Data := mkData 0 1 2 3 4 5.

Definition store : State :=
  mkState
    [ORng 7;
     ONd (Nd2 [[1; 0]; [0; 1]]%float);
     ONd (Nd2 [[1; 2]; [3; 4]]%float);
     ONd (Nd2 [[1.5; 2.5]; [3.5; 4.5]]%float);
     ONd (Nd1 [0.5; 1.5]%float);
     ONd (Nd2 [[2; 2]; [3; 5]]%float);
     ONd (NdI [0; 5; 10; 15; 20; 25; 30; 35; 40; 45])]
    [].

Definition homo : ndarray := Nd2 [[1.5; 2.5]; [3.5; 4.5]]%float.

(** Scores with the maximum attained at 10, 15 and 30 components. *)
Definition tied : list float := [1; 2; 7; 7; 3; 0; 7; 1; 1; 1]%float.

End Toy.

(** ** A library that refuses large models

    The toy library, except that cross-validation raises for more than 40
    components. *)
Module Picky.

Definition cv (est : Estimator) (a : ndarray) : result (vector * ndarray) :=
  if 40 <? Toy.n_of est then Raise ValueError else Toy.cv est a.

Definition library : Library := {|
  RandomState := Z;
  RandomState_init := fun seed => seed;
  mt_randn := Toy.randn;
  mt_rand := Toy.rand;
  linalg_svd := fun a => Ok (a, [], a);
  np_dot := Toy.dot;
  np_mean := Toy.mean;
  np_power := fun b e => PrimFloat.mul b e;
  cross_val_score := cv;
  GridSearchCV_fit := Toy.grid_search;
  PCA_fit := Toy.fit
|}.

Definition data : ndarray := Nd2 [[1; 2]; [3; 4]]%float.

(** The grid at location 0 and a dataset at location 1. *)
Definition store : @State library :=
  @mkState library [@ONd library (NdI reference_grid); @ONd library data] [].

End Picky.

(** * Facts

    ** Order of binary64 values

    Read off [SFcompare], to which the primitive comparisons are specified. *)

Ltac cmp_cases :=
  repeat match goal with
  | H : context [(?a ?= ?b)%Z] |- _ => destruct (Z.compare_spec a b); simpl in H
  | |- context [(?a ?= ?b)%Z] => destruct (Z.compare_spec a b); simpl
  | H : context [PosDef.Pos.compare_cont Eq ?a ?b] |- _ =>
      change (PosDef.Pos.compare_cont Eq a b) with (Pos.compare a b) in *;
      destruct (Pos.compare_spec a b); simpl in H
  | |- context [PosDef.Pos.compare_cont Eq ?a ?b] =>
      change (PosDef.Pos.compare_cont Eq a b) with (Pos.compare a b) in *;
      destruct (Pos.compare_spec a b); simpl
  end.

Module F64Facts.
Import F64.

Lemma SFcompare_trans x y z c1 c2 :
  SFcompare x y = Some c1 -> SFcompare y z = Some c2 ->
  c1 <> Gt -> c2 <> Gt ->
  SFcompare x z = Some (match c1, c2 with Eq, Eq => Eq | _, _ => Lt end).
Proof.
  destruct x as [[]|[]| |[] m1 e1], y as [[]|[]| |[] m2 e2], z as [[]|[]| |[] m3 e3];
    simpl; intros H1 H2 N1 N2; try congruence;
    injection H1 as <-; injection H2 as <-; try congruence; try reflexivity.
  all: cmp_cases; subst; try congruence; try reflexivity; exfalso; lia.
Qed.

Lemma SFcompare_sym x y : SFcompare y x = option_map CompOpp (SFcompare x y).
Proof.
  destruct x as [[]|[]| |[] m1 e1], y as [[]|[]| |[] m2 e2]; simpl; try reflexivity.
  all: cmp_cases; subst; try congruence; try reflexivity; exfalso; lia.
Qed.

Lemma SFcompare_refl x : SFcompare x x = None \/ SFcompare x x = Some Eq.
Proof.
  destruct x as [[]|[]| |[] m e]; simpl; auto; right.
  all: rewrite Z.compare_refl;
    change (PosDef.Pos.compare_cont Eq m m) with (Pos.compare m m);
    rewrite Pos.compare_refl; reflexivity.
Qed.

Lemma leb_cmp x y :
  PrimFloat.leb x y = match cmp x y with Some Lt | Some Eq => true | _ => false end.
Proof. rewrite leb_spec. unfold SFleb, cmp. destruct SFcompare as [[]|]; reflexivity. Qed.

Lemma ltb_cmp x y :
  PrimFloat.ltb x y = match cmp x y with Some Lt => true | _ => false end.
Proof. rewrite ltb_spec. unfold SFltb, cmp. destruct SFcompare as [[]|]; reflexivity. Qed.

Lemma eqb_cmp x y :
  PrimFloat.eqb x y = match cmp x y with Some Eq => true | _ => false end.
Proof. rewrite FloatAxioms.eqb_spec. unfold SFeqb, cmp. destruct SFcompare as [[]|]; reflexivity. Qed.

Lemma isnan_cmp x : isnan x = match cmp x x with Some Eq => false | _ => true end.
Proof. unfold isnan. rewrite eqb_cmp. destruct (cmp x x) as [[]|]; reflexivity. Qed.

Lemma cmp_defined x y :
  isnan x = false -> isnan y = false -> exists c, cmp x y = Some c.
Proof.
  rewrite !isnan_cmp. unfold cmp.
  destruct (Prim2SF x) as [[]|[]| |[] m1 e1], (Prim2SF y) as [[]|[]| |[] m2 e2];
    simpl; intros; try discriminate; eauto.
Qed.

Lemma cmp_sym x y : cmp y x = option_map CompOpp (cmp x y).
Proof. apply SFcompare_sym. Qed.

Lemma leb_notnan x y : PrimFloat.leb x y = true -> isnan x = false /\ isnan y = false.
Proof.
  rewrite leb_cmp, !isnan_cmp. unfold cmp.
  destruct (SFcompare_refl (Prim2SF x)) as [Hx|Hx], (SFcompare_refl (Prim2SF y)) as [Hy|Hy];
    rewrite Hx, Hy; auto;
    destruct (Prim2SF x) as [[]|[]| |[] m1 e1], (Prim2SF y) as [[]|[]| |[] m2 e2];
    simpl in *; try discriminate; auto.
Qed.

Lemma leb_refl x : isnan x = false -> PrimFloat.leb x x = true.
Proof. rewrite leb_cmp, isnan_cmp. destruct (cmp x x) as [[]|]; congruence. Qed.

Lemma not_le_ltb x y :
  isnan x = false -> isnan y = false -> not_le x y = true -> PrimFloat.ltb y x = true.
Proof.
  intros Hx Hy. unfold not_le. rewrite leb_cmp, ltb_cmp, (cmp_sym x y).
  destruct (cmp_defined x y Hx Hy) as [c ->]. destruct c; simpl; congruence.
Qed.

Lemma ltb_leb x y : PrimFloat.ltb x y = true -> PrimFloat.leb x y = true.
Proof. rewrite leb_cmp, ltb_cmp. destruct (cmp x y) as [[]|]; congruence. Qed.

Lemma ltb_not_le x y : PrimFloat.ltb x y = true -> not_le y x = true.
Proof.
  unfold not_le. rewrite leb_cmp, ltb_cmp, (cmp_sym x y).
  destruct (cmp x y) as [[]|]; simpl; congruence.
Qed.

Lemma eqb_leb x y : PrimFloat.eqb x y = true -> PrimFloat.leb x y = true /\ PrimFloat.leb y x = true.
Proof.
  rewrite !leb_cmp, eqb_cmp, (cmp_sym x y).
  destruct (cmp x y) as [[]|]; simpl; try congruence; auto.
Qed.

Lemma leb_antisym x y :
  PrimFloat.leb x y = true -> PrimFloat.leb y x = true -> PrimFloat.eqb x y = true.
Proof.
  rewrite !leb_cmp, eqb_cmp, (cmp_sym x y).
  destruct (cmp x y) as [[]|]; simpl; try congruence; auto.
Qed.

Lemma leb_ltb_trans x y z :
  PrimFloat.leb x y = true -> PrimFloat.ltb y z = true -> PrimFloat.ltb x z = true.
Proof.
  rewrite leb_cmp, !ltb_cmp. unfold cmp.
  destruct (SFcompare (Prim2SF x) (Prim2SF y)) as [c1|] eqn:H1; [|discriminate].
  destruct (SFcompare (Prim2SF y) (Prim2SF z)) as [c2|] eqn:H2; [|discriminate].
  intros A B.
  rewrite (SFcompare_trans _ _ _ c1 c2 H1 H2); destruct c1, c2; congruence.
Qed.

Lemma leb_trans x y z :
  PrimFloat.leb x y = true -> PrimFloat.leb y z = true -> PrimFloat.leb x z = true.
Proof.
  rewrite !leb_cmp. unfold cmp.
  destruct (SFcompare (Prim2SF x) (Prim2SF y)) as [c1|] eqn:H1; [|discriminate].
  destruct (SFcompare (Prim2SF y) (Prim2SF z)) as [c2|] eqn:H2; [|discriminate].
  intros A B.
  rewrite (SFcompare_trans _ _ _ c1 c2 H1 H2); destruct c1, c2; congruence.
Qed.

End F64Facts.

Import F64 F64Facts.

(** ** [np.argmax] *)

Lemma not_le_nan s x : isnan s = true -> not_le s x = true.
Proof.
  intros Hs. unfold not_le. destruct (PrimFloat.leb s x) eqn:E; [|reflexivity].
  apply leb_notnan in E as [E _]. congruence.
Qed.

Lemma argmax_loop_spec l : forall pre mp mi,
  pre !! mi = Some mp ->
  (forall k x, pre !! k = Some x -> PrimFloat.leb x mp = true) ->
  (forall k x, (k < mi)%nat -> pre !! k = Some x -> PrimFloat.ltb x mp = true) ->
  first_maximum (pre ++ l) (argmax_loop l (length pre) mp mi).
Proof.
  induction l as [|x l IH]; intros pre mp mi Hmi Hle Hlt; simpl.
  - rewrite app_nil_r. exists mp. split; [assumption|]. split.
    + intros k y Hk Hy. split.
      * apply (leb_notnan y mp). eauto.
      * apply ltb_not_le. eauto.
    + intros _ k y Hy. eauto.
  - assert (Hmp : isnan mp = false) by (apply (leb_notnan mp mp); eauto).
    destruct (not_le x mp) eqn:Hx.
    + destruct (isnan x) eqn:Hnan.
      * exists x. split; [apply list_lookup_middle; reflexivity|]. split.
        -- intros k y Hk Hy. rewrite lookup_app_l in Hy by assumption.
           split; [apply (leb_notnan y mp); eauto | apply not_le_nan; assumption].
        -- congruence.
      * assert (Hgt : PrimFloat.ltb mp x = true) by (apply not_le_ltb; assumption).
        replace (pre ++ x :: l) with ((pre ++ [x]) ++ l) by (rewrite <- app_assoc; reflexivity).
        replace (S (length pre)) with (length (pre ++ [x])) by (rewrite length_app; simpl; lia).
        apply IH.
        -- apply list_lookup_middle. reflexivity.
        -- intros k y Hy. apply lookup_app_Some in Hy as [Hy|[Hk Hy]].
           ++ apply ltb_leb, (leb_ltb_trans y mp x); eauto.
           ++ destruct (k - length pre)%nat as [|n]; simpl in Hy; [|rewrite lookup_nil in Hy; discriminate].
              injection Hy as <-. apply leb_refl. assumption.
        -- intros k y Hk Hy. rewrite lookup_app_l in Hy by assumption.
           apply (leb_ltb_trans y mp x); eauto.
    + unfold not_le in Hx. apply negb_false_iff in Hx.
      replace (pre ++ x :: l) with ((pre ++ [x]) ++ l) by (rewrite <- app_assoc; reflexivity).
      replace (S (length pre)) with (length (pre ++ [x])) by (rewrite length_app; simpl; lia).
      apply IH.
      * rewrite lookup_app_l; [assumption|]. apply lookup_lt_Some in Hmi. assumption.
      * intros k y Hy. apply lookup_app_Some in Hy as [Hy|[Hk Hy]]; [eauto|].
        destruct (k - length pre)%nat as [|n]; simpl in Hy; [|rewrite lookup_nil in Hy; discriminate].
        injection Hy as <-. assumption.
      * intros k y Hk Hy. apply lookup_lt_Some in Hmi.
        rewrite lookup_app_l in Hy by lia. eauto.
Qed.

Lemma np_argmax_spec a r : np_argmax a = Ok r -> first_maximum a r.
Proof.
  destruct a as [|x l]; simpl; [discriminate|]. intros [= <-].
  destruct (isnan x) eqn:Hx.
  - exists x. split; [reflexivity|]. split; [intros; lia | congruence].
  - apply (argmax_loop_spec l [x] x 0%nat).
    + reflexivity.
    + intros [|k] y Hy; simpl in Hy; [|rewrite lookup_nil in Hy; discriminate].
      injection Hy as <-. apply leb_refl. assumption.
    + intros; lia.
Qed.

Lemma np_argmax_ok a : a <> [] -> exists r, np_argmax a = Ok r.
Proof. destruct a; [congruence|]. simpl. eauto. Qed.

Lemma first_maximum_lt a r : first_maximum a r -> (r < length a)%nat.
Proof. intros (s & Hs & _). eapply lookup_lt_Some; eauto. Qed.

(** A tie is broken towards the lowest index. *)
Lemma first_maximum_ties a r j sj :
  first_maximum a r -> a !! j = Some sj ->
  (forall k x, a !! k = Some x -> PrimFloat.leb x sj = true) ->
  (r <= j)%nat /\ exists sr, a !! r = Some sr /\ PrimFloat.eqb sr sj = true.
Proof.
  intros (s & Hs & Hbefore & Hall) Hj Hmax.
  assert (Hsj : PrimFloat.leb s sj = true) by eauto.
  assert (Hnan : isnan s = false) by (apply (leb_notnan s sj); assumption).
  split.
  - destruct (le_lt_dec r j) as [|Hlt]; [assumption|exfalso].
    destruct (Hbefore j sj Hlt Hj) as [_ Hb]. unfold not_le in Hb.
    rewrite Hsj in Hb. discriminate.
  - exists s. split; [assumption|]. apply leb_antisym; eauto.
Qed.

(** ** Running the monad *)

Section Run.
Context {L : Library}.

Lemma bind_Ok {A B} (m : M A) (k : A -> M B) st b st' :
  bind m k st = Ok (b, st') <->
  exists a st1, m st = Ok (a, st1) /\ k a st1 = Ok (b, st').
Proof.
  unfold bind. split.
  - destruct (m st) as [[a st1]|e]; [eauto | discriminate].
  - intros (a & st1 & -> & H). exact H.
Qed.

Lemma bind_Raise {A B} (m : M A) (k : A -> M B) st e :
  bind m k st = Raise e <->
  m st = Raise e \/ exists a st1, m st = Ok (a, st1) /\ k a st1 = Raise e.
Proof.
  unfold bind. split.
  - destruct (m st) as [[a st1]|e']; [eauto | intros [= ->]; auto].
  - intros [-> | (a & st1 & -> & H)]; [reflexivity | exact H].
Qed.

Lemma lift_Ok {A} (r : result A) st a st' :
  lift r st = Ok (a, st') <-> r = Ok a /\ st' = st.
Proof.
  unfold lift. destruct r; split; intros H; try discriminate.
  - injection H as -> ->. auto.
  - destruct H as [[= ->] ->]. reflexivity.
  - destruct H; discriminate.
Qed.

Lemma state_eta (st : State) : mkState (heap st) (stdout st) = st.
Proof. destruct st; reflexivity. Qed.

Lemma preserves_ret {T A} (f : State -> T) (a : A) : preserves f (ret a).
Proof. intros st b st' [= _ <-]. reflexivity. Qed.

Lemma preserves_raise {T A} (f : State -> T) e : preserves f (@raise _ A e).
Proof. intros st b st' [=]. Qed.

Lemma preserves_lift {T A} (f : State -> T) (r : result A) : preserves f (lift r).
Proof. intros st a st' H. apply lift_Ok in H as [_ ->]. reflexivity. Qed.

Lemma preserves_read {T} (f : State -> T) l : preserves f (read l).
Proof.
  intros st a st'. unfold read. destruct (heap st !! l); [|discriminate].
  intros [= _ <-]. reflexivity.
Qed.

Lemma preserves_bind {T A B} (f : State -> T) (m : M A) (k : A -> M B) :
  preserves f m -> (forall a, preserves f (k a)) -> preserves f (bind m k).
Proof.
  intros Hm Hk st b st' H. apply bind_Ok in H as (a & st1 & H1 & H2).
  rewrite (Hk _ _ _ _ H2). eauto.
Qed.

Lemma preserves_for_each {T A S} (f : State -> T) (l : list A) (body : A -> S -> M S) :
  (forall x s, preserves f (body x s)) -> forall s, preserves f (for_each l body s).
Proof.
  intros Hb. induction l as [|x l IH]; intros s; simpl.
  - apply preserves_ret.
  - apply preserves_bind; auto.
Qed.

Lemma print_keeps_heap line : preserves heap (print line).
Proof. intros st a st' [= _ <-]. reflexivity. Qed.

Lemma write_keeps_stdout l o : preserves stdout (write l o).
Proof. intros st a st' [= _ <-]. reflexivity. Qed.

Lemma preserves_both {A} (m : M A) st a st' :
  preserves heap m -> preserves stdout m -> m st = Ok (a, st') -> st' = st.
Proof.
  intros Hh Hs H. rewrite <- (state_eta st'), <- (state_eta st).
  rewrite (Hh _ _ _ H), (Hs _ _ _ H). reflexivity.
Qed.

End Run.

Ltac preserves_step :=
  match goal with
  | |- preserves _ (bind _ _) => apply preserves_bind; [|intros ?]
  | |- preserves _ (ret _) => apply preserves_ret
  | |- preserves _ (raise _) => apply preserves_raise
  | |- preserves _ (lift _) => apply preserves_lift
  | |- preserves heap (print _) => apply print_keeps_heap
  | |- preserves stdout (write _ _) => apply write_keeps_stdout
  | |- preserves _ (read _) => apply preserves_read
  | |- preserves _ (for_each _ _ _) => apply preserves_for_each; intros ? ?
  | |- preserves _ (match ?x with _ => _ end) => destruct x
  end.

(** ** The store under read-only library calls *)

Section Frame.
Context {L : Library}.

Lemma read_Ok l st o st' :
  read l st = Ok (o, st') <-> heap st !! l = Some o /\ st' = st.
Proof.
  unfold read. destruct (heap st !! l) as [o'|]; split; intros H;
    try discriminate; try (destruct H; discriminate).
  - injection H as -> ->. auto.
  - destruct H as [[= ->] ->]. reflexivity.
Qed.

Lemma read_nd_Ok l st a st' :
  read_nd l st = Ok (a, st') <-> heap st !! l = Some (ONd a) /\ st' = st.
Proof.
  unfold read_nd. rewrite bind_Ok. split.
  - intros (o & st1 & H1 & H2). apply read_Ok in H1 as [H1 ->].
    destruct o; [|discriminate]. injection H2 as -> ->. auto.
  - intros [H ->]. exists (ONd a), st. split; [apply read_Ok; auto | reflexivity].
Qed.

Lemma read_ndI_Ok l st v st' :
  read_ndI l st = Ok (v, st') <-> heap st !! l = Some (ONd (NdI v)) /\ st' = st.
Proof.
  unfold read_ndI. rewrite bind_Ok. split.
  - intros (a & st1 & H1 & H2). apply read_nd_Ok in H1 as [H1 ->].
    destruct a; try discriminate. injection H2 as -> ->. auto.
  - intros [H ->]. exists (NdI v), st. split; [apply read_nd_Ok; auto | reflexivity].
Qed.

Lemma call_with_array_Ok {A} (f : ndarray -> result (A * ndarray)) X st r st' :
  call_with_array f X st = Ok (r, st') <->
  exists a a', heap st !! X = Some (ONd a) /\ f a = Ok (r, a') /\
    st' = mkState (<[X := ONd a']> (heap st)) (stdout st).
Proof.
  unfold call_with_array. rewrite bind_Ok. split.
  - intros (a & st1 & H1 & H2). apply read_nd_Ok in H1 as [H1 ->].
    apply bind_Ok in H2 as ([r' a'] & st2 & H2 & H3).
    apply lift_Ok in H2 as [H2 ->].
    apply bind_Ok in H3 as ([] & st3 & H3 & H4).
    injection H3 as <-. injection H4 as <- <-. eauto.
  - intros (a & a' & H1 & H2 & ->). exists a, st.
    split; [apply read_nd_Ok; auto|].
    apply bind_Ok. exists (r, a'), st. split; [apply lift_Ok; auto | reflexivity].
Qed.

Lemma preserves_read_nd {T} (f : State -> T) l : preserves f (read_nd l).
Proof. unfold read_nd. repeat preserves_step. Qed.

Lemma preserves_read_ndI {T} (f : State -> T) l : preserves f (read_ndI l).
Proof. unfold read_ndI. preserves_step; [apply preserves_read_nd|]. repeat preserves_step. Qed.

Lemma preserves_best_by_cv {T} (f : State -> T) nc scores :
  preserves f (best_by_cv nc scores).
Proof.
  unfold best_by_cv. preserves_step; [preserves_step|].
  preserves_step; [apply preserves_read_ndI|]. preserves_step.
Qed.

Lemma preserves_data_append {T} (f : State -> T) data i t :
  preserves f (data_append data i t).
Proof. unfold data_append. repeat preserves_step. Qed.

Lemma preserves_figure {T} (f : State -> T) g k title : preserves f (figure g k title).
Proof. unfold figure. repeat preserves_step. Qed.

(** Nothing but [print] writes to the output. *)
Lemma call_with_array_silent {A} (f : ndarray -> result (A * ndarray)) X :
  preserves stdout (call_with_array f X).
Proof.
  intros st r st' H. apply call_with_array_Ok in H as (a & a' & _ & _ & ->).
  reflexivity.
Qed.

Lemma compute_scores_silent nc X : preserves stdout (compute_scores nc X).
Proof.
  unfold compute_scores. preserves_step; [apply preserves_read_ndI|].
  preserves_step; [|repeat preserves_step].
  preserves_step. unfold score_step.
  repeat first [apply call_with_array_silent | preserves_step].
Qed.

Lemma shrunk_cov_score_silent X : preserves stdout (shrunk_cov_score X).
Proof.
  unfold shrunk_cov_score. repeat first [apply call_with_array_silent | preserves_step].
Qed.

Lemma lw_score_silent X : preserves stdout (lw_score X).
Proof. unfold lw_score. repeat first [apply call_with_array_silent | preserves_step]. Qed.

Context {RO : ReadOnly L}.

Lemma keeps_call_with_array {A} (f : ndarray -> result (A * ndarray)) X :
  (forall a r a', f a = Ok (r, a') -> a' = a) -> preserves heap (call_with_array f X).
Proof.
  intros Hf st r st' H. apply call_with_array_Ok in H as (a & a' & H1 & H2 & ->).
  apply Hf in H2 as ->. simpl. apply list_insert_id. assumption.
Qed.

Lemma keeps_cross_val_score est X : preserves heap (call_cross_val_score est X).
Proof. apply keeps_call_with_array. intros a r a'. apply cross_val_score_readonly. Qed.

Lemma keeps_compute_scores nc X : preserves heap (compute_scores nc X).
Proof.
  unfold compute_scores. preserves_step; [apply preserves_read_ndI|].
  preserves_step; [|repeat preserves_step].
  preserves_step. unfold score_step. repeat preserves_step; apply keeps_cross_val_score.
Qed.

Lemma keeps_shrunk_cov_score X : preserves heap (shrunk_cov_score X).
Proof.
  unfold shrunk_cov_score. preserves_step.
  - apply keeps_call_with_array. intros a r a'. apply GridSearchCV_fit_readonly.
  - preserves_step; [apply keeps_cross_val_score | preserves_step].
Qed.

Lemma keeps_lw_score X : preserves heap (lw_score X).
Proof. unfold lw_score. preserves_step; [apply keeps_cross_val_score | preserves_step]. Qed.

Lemma keeps_mle_fit X : preserves heap (call_with_array (PCA_fit (PCA "full" NC_mle)) X).
Proof. apply keeps_call_with_array. intros a r a'. apply PCA_fit_readonly. Qed.

Lemma keeps_analyse nc X title acc : preserves heap (analyse nc X title acc).
Proof.
  unfold analyse, marker_range, grid_range. destruct acc as [[data i] sel].
  repeat first
    [ apply keeps_compute_scores | apply preserves_best_by_cv | apply keeps_mle_fit
    | apply keeps_shrunk_cov_score | apply keeps_lw_score | apply preserves_data_append
    | apply preserves_read_ndI | preserves_step ].
Qed.

Lemma keeps_main_loop d nc : preserves heap (main_loop d nc).
Proof.
  unfold main_loop. preserves_step.
  - preserves_step. destruct x as [X title], s as [[[X0 data] i] sel].
    preserves_step; [apply keeps_analyse|]. repeat preserves_step.
  - repeat preserves_step.
Qed.

End Frame.

(** ** The score computer *)

Section Scores.
Context {L : Library} {RO : ReadOnly L}.

(** A cross-validation call on the array at [X] is the library's function
    applied to the array's contents. *)
Lemma call_cross_val_score_run est X st a :
  heap st !! X = Some (ONd a) ->
  call_cross_val_score est X st =
    match cross_val_score est a with
    | Ok (s, _) => Ok (s, st)
    | Raise e => Raise e
    end.
Proof.
  intros HX. unfold call_cross_val_score, call_with_array, bind, read_nd, read, bind.
  rewrite HX. simpl. unfold lift.
  destruct (cross_val_score est a) as [[s a']|e] eqn:E; [|reflexivity].
  apply cross_val_score_readonly in E as ->.
  unfold write, ret. rewrite list_insert_id by assumption.
  rewrite state_eta. reflexivity.
Qed.

Lemma sweep_run X a grid : forall c1 c2 ps0 fs0 st,
  heap st !! X = Some (ONd a) ->
  match for_each grid (score_step X) (PCA "full" c1, FactorAnalysis c2, ps0, fs0) st with
  | Ok ((_, _, ps, fs), st') =>
      st' = st /\ exists ps1 fs1,
        ps = ps0 ++ ps1 /\ fs = fs0 ++ fs1 /\
        Forall2 (scored pca_with a) grid ps1 /\ Forall2 (scored fa_with a) grid fs1
  | Raise e =>
      exists n, n ∈ grid /\
        (cross_val_score (pca_with n) a = Raise e \/
         cross_val_score (fa_with n) a = Raise e)
  end.
Proof.
  induction grid as [|n grid IH]; intros c1 c2 ps0 fs0 st HX; simpl.
  - split; [reflexivity|]. exists [], []. rewrite !app_nil_r. auto.
  - unfold bind at 1. unfold score_step at 1. simpl. unfold bind at 1.
    rewrite (call_cross_val_score_run _ X st a HX).
    fold (pca_with n).
    destruct (cross_val_score (pca_with n) a) as [[sp a1]|e] eqn:Ep.
    2:{ exists n. split; [left|auto]. }
    unfold bind at 1. rewrite (call_cross_val_score_run _ X st a HX).
    fold (fa_with n).
    destruct (cross_val_score (fa_with n) a) as [[sf a2]|e] eqn:Ef.
    2:{ exists n. split; [left|auto]. }
    pose proof (cross_val_score_readonly _ _ _ _ Ep) as ->.
    pose proof (cross_val_score_readonly _ _ _ _ Ef) as ->.
    unfold ret at 1.
    specialize (IH (NC_int n) (NC_int n) (ps0 ++ [np_mean sp]) (fs0 ++ [np_mean sf]) st HX).
    unfold pca_with, fa_with in *.
    destruct (for_each grid _ _ st) as [[[[[pca fa] ps] fs] st']|e].
    + destruct IH as (-> & ps1 & fs1 & -> & -> & Hp & Hf). split; [reflexivity|].
      exists (np_mean sp :: ps1), (np_mean sf :: fs1).
      rewrite <- !app_assoc. repeat split; try reflexivity.
      * constructor; [exists sp; auto | assumption].
      * constructor; [exists sf; auto | assumption].
    + destruct IH as (m & Hm & IH). exists m. split; [right; assumption | assumption].
Qed.

Lemma compute_scores_run nc X st grid a :
  heap st !! nc = Some (ONd (NdI grid)) ->
  heap st !! X = Some (ONd a) ->
  match compute_scores nc X st with
  | Ok ((ps, fs), st') =>
      st' = st /\
      Forall2 (scored pca_with a) grid ps /\ Forall2 (scored fa_with a) grid fs
  | Raise e =>
      exists n, n ∈ grid /\
        (cross_val_score (pca_with n) a = Raise e \/
         cross_val_score (fa_with n) a = Raise e)
  end.
Proof.
  intros Hnc HX. unfold compute_scores. unfold bind at 1.
  unfold read_ndI, read_nd, read, bind. rewrite Hnc. simpl.
  pose proof (sweep_run X a grid NC_None NC_None [] [] st HX) as H.
  destruct (for_each grid _ _ st) as [[[[[pca fa] ps] fs] st']|e]; [|assumption].
  destruct H as (-> & ps1 & fs1 & -> & -> & Hp & Hf). simpl. auto.
Qed.

(** The first grid point hands both estimators [n_components = 0]; the
    cycle raises what the library raises and nothing else, and leaves the
    two means as the first entries. *)
Lemma zero_components_first_cycle X st a :
  heap st !! X = Some (ONd a) ->
  head reference_grid = Some 0 /\
  score_step X 0 (PCA "full" NC_None, FactorAnalysis NC_None, [], []) st =
    match cross_val_score (pca_with 0) a with
    | Raise e => Raise e
    | Ok (sp, _) =>
        match cross_val_score (fa_with 0) a with
        | Raise e => Raise e
        | Ok (sf, _) => Ok ((pca_with 0, fa_with 0, [np_mean sp], [np_mean sf]), st)
        end
    end.
Proof.
  intros HX. split; [reflexivity|].
  unfold score_step. cbn [set_n_components]. unfold bind.
  rewrite (call_cross_val_score_run _ X st a HX). fold (pca_with 0).
  destruct (cross_val_score (pca_with 0) a) as [[sp a1]|e]; [|reflexivity].
  rewrite (call_cross_val_score_run _ X st a HX). fold (fa_with 0).
  destruct (cross_val_score (fa_with 0) a) as [[sf a2]|e]; reflexivity.
Qed.

End Scores.

(** ** [%d] *)

Lemma to_int_proper z :
  Z.to_int z <> Decimal.Pos Decimal.Nil /\ Z.to_int z <> Decimal.Neg Decimal.Nil.
Proof.
  assert (Hn : Z.to_int z = Decimal.norm (Z.to_int z))
    by (rewrite <- (DecimalZ.to_of (Z.to_int z)), DecimalZ.of_to; reflexivity).
  rewrite Hn. destruct (Z.to_int z) as [d|d]; simpl.
  - split; [|discriminate]. intros [= H]. apply (DecimalFacts.unorm_nonnil _ H).
  - destruct (Decimal.nzhead d); split; discriminate.
Qed.

Lemma format_d_inj a b : format_d a = format_d b -> a = b.
Proof.
  intros H. apply DecimalZ.to_int_inj.
  assert (P : forall z, NilZero.int_of_string (format_d z) = Some (Z.to_int z))
    by (intros z; apply NilZero.isi; apply to_int_proper).
  pose proof (P a) as Ha. rewrite H, P in Ha. congruence.
Qed.

(** ** Selection *)

Section Selection.
Context {L : Library}.

Lemma getitem_Ok {A} (a : list A) i x : getitem a i = Ok x <-> a !! i = Some x.
Proof.
  unfold getitem. destruct (a !! i); split; intros H; try discriminate; congruence.
Qed.

Lemma best_by_cv_Ok nc scores st n st' :
  best_by_cv nc scores st = Ok (n, st') <->
  exists i grid, np_argmax scores = Ok i /\
    heap st !! nc = Some (ONd (NdI grid)) /\ grid !! i = Some n /\ st' = st.
Proof.
  unfold best_by_cv. rewrite bind_Ok. split.
  - intros (i & st1 & H1 & H2). apply lift_Ok in H1 as [H1 ->].
    apply bind_Ok in H2 as (grid & st2 & H2 & H3).
    apply read_ndI_Ok in H2 as [H2 ->]. apply lift_Ok in H3 as [H3 ->].
    apply getitem_Ok in H3. eauto 10.
  - intros (i & grid & H1 & H2 & H3 & ->). exists i, st.
    split; [apply lift_Ok; auto|]. apply bind_Ok. exists grid, st.
    split; [apply read_ndI_Ok; auto|]. apply lift_Ok. split; [|reflexivity].
    apply getitem_Ok. assumption.
Qed.

Lemma main_loop_unfold d nc st :
  main_loop d nc st =
    match analyse nc (X_homo d) "Homoscedastic Noise" ([[]; []], 0%nat, []) st with
    | Raise e => Raise e
    | Ok ((da, j, s), st') =>
        match analyse nc (X_hetero d) "Heteroscedastic Noise" (da, j, s) st' with
        | Raise e => Raise e
        | Ok ((db, k, t), st'') => Ok (mkGlobals d nc (X_hetero d) db k t, st'')
        end
    end.
Proof.
  unfold main_loop. cbn [for_each].
  generalize (analyse nc (X_homo d) "Homoscedastic Noise"),
             (analyse nc (X_hetero d) "Heteroscedastic Noise").
  intros m1 m2. unfold bind, ret.
  destruct (m1 _ st) as [[[[da j] s] st']|e]; [|reflexivity].
  destruct (m2 _ st') as [[[[db k] t] st'']|e]; reflexivity.
Qed.

Lemma print_Ok line st u st' :
  print line st = Ok (u, st') <-> st' = mkState (heap st) (stdout st ++ [line]).
Proof. unfold print. split; [intros [= _ <-]; reflexivity | intros ->; destruct u; reflexivity]. Qed.

Context {RO : ReadOnly L}.

Lemma analyse_Ok nc X title data i sel st data' i' sel' st' grid a :
  heap st !! nc = Some (ONd (NdI grid)) ->
  heap st !! X = Some (ONd a) ->
  analyse nc X title (data, i, sel) st = Ok ((data', i', sel'), st') ->
  exists s ip ifa,
    sel' = sel ++ [s] /\ i' = S i /\
    Forall2 (scored pca_with a) grid (pca_scores s) /\
    Forall2 (scored fa_with a) grid (fa_scores s) /\
    np_argmax (pca_scores s) = Ok ip /\ grid !! ip = Some (n_components_pca s) /\
    np_argmax (fa_scores s) = Ok ifa /\ grid !! ifa = Some (n_components_fa s) /\
    PCA_fit (PCA "full" NC_mle) a = Ok (n_components_pca_mle s, a) /\
    heap st' = heap st /\
    stdout st' = stdout st ++ report title s.
Proof.
  intros Hnc HX H. unfold analyse in H.
  apply bind_Ok in H as ([ps fs] & st1 & H1 & H).
  pose proof (compute_scores_run nc X st grid a Hnc HX) as Hcs.
  rewrite H1 in Hcs. destruct Hcs as (-> & Hps & Hfs).
  apply bind_Ok in H as (n1 & st2 & H2 & H).
  apply best_by_cv_Ok in H2 as (ip & g1 & Hip & Hg1 & Hn1 & ->).
  apply bind_Ok in H as (n2 & st3 & H3 & H).
  apply best_by_cv_Ok in H3 as (ifa & g2 & Hifa & Hg2 & Hn2 & ->).
  rewrite Hnc in Hg1, Hg2. injection Hg1 as <-. injection Hg2 as <-.
  apply bind_Ok in H as (n3 & st4 & H4 & H).
  apply call_with_array_Ok in H4 as (a0 & a' & Ha0 & Hfit & ->).
  rewrite HX in Ha0. injection Ha0 as <-.
  pose proof (PCA_fit_readonly _ _ _ _ Hfit) as ->.
  rewrite list_insert_id in H by assumption. rewrite state_eta in H.
  do 4 (apply bind_Ok in H as ([] & ? & Hp & H); apply print_Ok in Hp as ->).
  match type of H with bind ?m ?k ?s = _ =>
    assert (Hheap : heap st' = heap s /\ stdout st' = stdout s /\
                    sel' = sel ++ [mkSelection ps fs n1 n2 n3] /\ i' = S i)
  end.
  { clear -H RO. unfold marker_range, grid_range in H.
    repeat match type of H with
    | bind ?m ?k ?s = Ok _ =>
        let Hm := fresh "Hm" in
        apply bind_Ok in H as (? & ? & Hm & H);
        apply preserves_both in Hm as ->;
        [ | repeat first
              [ apply preserves_data_append | apply keeps_shrunk_cov_score
              | apply keeps_lw_score | apply preserves_read_ndI | preserves_step ]
          | repeat first
              [ apply preserves_data_append | apply shrunk_cov_score_silent
              | apply lw_score_silent | apply preserves_read_ndI | preserves_step ] ]
    end.
    injection H as <- <- <- <-. auto. }
  simpl in Hheap. destruct Hheap as (Hh & Hs & -> & ->).
  exists (mkSelection ps fs n1 n2 n3), ip, ifa. simpl.
  rewrite Hs, <- !app_assoc. simpl. rewrite Hh. repeat split; auto.
Qed.

(** The loop runs two passes, one selection and one report each. *)
Lemma main_loop_Ok d nc st g st' grid ah at_ :
  heap st !! nc = Some (ONd (NdI grid)) ->
  heap st !! X_homo d = Some (ONd ah) ->
  heap st !! X_hetero d = Some (ONd at_) ->
  main_loop d nc st = Ok (g, st') ->
  exists s1 s2,
    g_selected g = [s1; s2] /\
    stdout st' = stdout st ++ report "Homoscedastic Noise" s1
                           ++ report "Heteroscedastic Noise" s2.
Proof.
  intros Hnc Hh Ht H. rewrite main_loop_unfold in H.
  destruct (analyse nc (X_homo d) _ _ st) as [[[[da j] s] s1]|e] eqn:E1; [|discriminate].
  destruct (analyse nc (X_hetero d) _ _ s1) as [[[[db k] t] s2]|e] eqn:E2; [|discriminate].
  injection H as <- <-.
  destruct (analyse_Ok _ _ _ _ _ _ _ _ _ _ _ _ _ Hnc Hh E1)
    as (x1 & _ & _ & -> & -> & _ & _ & _ & _ & _ & _ & _ & Hheap & Hout1).
  rewrite <- Hheap in Hnc, Ht.
  destruct (analyse_Ok _ _ _ _ _ _ _ _ _ _ _ _ _ Hnc Ht E2)
    as (x2 & _ & _ & -> & -> & _ & _ & _ & _ & _ & _ & _ & _ & Hout2).
  exists x1, x2. split; [reflexivity|].
  cbn [stdout]. rewrite Hout2, Hout1, <- app_assoc. reflexivity.
Qed.

(** A run of the main loop that prints what the notebook has stored as the
    output of cell [5] selected 10, 10 and 10 components on the first
    dataset and 40, 10 and 38 on the second. *)
Lemma recorded_run_selections d nc st g st' grid ah at_ :
  heap st !! nc = Some (ONd (NdI grid)) ->
  heap st !! X_homo d = Some (ONd ah) ->
  heap st !! X_hetero d = Some (ONd at_) ->
  stdout st = [] ->
  main_loop d nc st = Ok (g, st') ->
  stdout st' = recorded_stdout ->
  exists s1 s2,
    g_selected g = [s1; s2] /\
    (n_components_pca s1, n_components_fa s1, n_components_pca_mle s1) = (10, 10, 10) /\
    (n_components_pca s2, n_components_fa s2, n_components_pca_mle s2) = (40, 10, 38).
Proof.
  intros Hnc Hh Ht Hout H Hrec.
  destruct (main_loop_Ok _ _ _ _ _ _ _ _ Hnc Hh Ht H) as (s1 & s2 & Hsel & Hst).
  exists s1, s2. split; [assumption|].
  rewrite Hout, Hrec in Hst. unfold recorded_stdout, report in Hst. cbn [app] in Hst.
  injection Hst as E1 E2 E3 E4 E5 E6.
  apply (format_d_inj 10) in E1, E2, E3, E5.
  apply (format_d_inj 40) in E4. apply (format_d_inj 38) in E6.
  split; congruence.
Qed.

End Selection.

(** ** The grid *)

Lemma np_arange_lookup start stop step g i x :
  np_arange start stop step = Ok g -> g !! i = Some x ->
  x = start + Z.of_nat i * step.
Proof.
  unfold np_arange. destruct (step =? 0); [discriminate|]. intros [= <-] Hx.
  rewrite list_lookup_fmap in Hx.
  destruct (seq 0 _ !! i) as [k|] eqn:Hk; [|discriminate].
  apply lookup_seq in Hk as [-> _]. simpl in Hx. congruence.
Qed.

Lemma np_arange_length start stop step g :
  np_arange start stop step = Ok g ->
  Z.of_nat (length g) = arange_len start stop step.
Proof.
  unfold np_arange. destruct (step =? 0); [discriminate|]. intros [= <-].
  rewrite length_map, length_seq. unfold arange_len. lia.
Qed.

Lemma n_components_value : np_arange 0 n_features 5 = Ok reference_grid.
Proof. reflexivity. Qed.

Section Grid.
Context {L : Library}.

Lemma create_grid_run st :
  create_grid st =
    Ok (length (heap st),
        mkState (heap st ++ [ONd (NdI reference_grid)]) (stdout st)).
Proof. reflexivity. Qed.

End Grid.

(** ** Outcomes that do not depend on the rest of the store *)

Section Determined.
Context {L : Library}.

Lemma footprint_insert grid a a' nc X h :
  footprint grid a nc X h -> footprint grid a' nc X (<[X := ONd a']> h).
Proof.
  intros (Hne & Hnc & HX). repeat split; [assumption| |].
  - rewrite list_lookup_insert_ne by congruence. assumption.
  - apply list_lookup_insert_eq. eapply lookup_lt_Some; eauto.
Qed.

Lemma effect_same {A} grid a nc X st (r : A) :
  footprint grid a nc X (heap st) -> effect X (Ok (r, a, [])) st = Ok (r, st).
Proof.
  intros (_ & _ & HX). unfold effect.
  rewrite list_insert_id by assumption. rewrite app_nil_r, state_eta. reflexivity.
Qed.

Lemma determined_ret {A} grid a (r : A) : determined grid a (fun _ _ => ret r).
Proof. exists (Ok (r, a, [])). intros nc X st H. rewrite (effect_same _ _ _ _ _ _ H). reflexivity. Qed.

Lemma determined_lift {A} grid a (r : result A) : determined grid a (fun _ _ => lift r).
Proof.
  destruct r as [x|e].
  - exists (Ok (x, a, [])). intros nc X st H. rewrite (effect_same _ _ _ _ _ _ H). reflexivity.
  - exists (Raise e). reflexivity.
Qed.

Lemma determined_read_grid grid a : determined grid a (fun nc _ => read_ndI nc).
Proof.
  exists (Ok (grid, a, [])). intros nc X st H. rewrite (effect_same _ _ _ _ _ _ H).
  destruct H as (_ & Hnc & _).
  unfold read_ndI, read_nd, read, bind. rewrite Hnc. reflexivity.
Qed.

Lemma determined_call {A} grid a (f : ndarray -> result (A * ndarray)) :
  determined grid a (fun _ X => call_with_array f X).
Proof.
  exists (match f a with Ok (r, a') => Ok (r, a', []) | Raise e => Raise e end).
  intros nc X st (_ & _ & HX).
  unfold call_with_array, read_nd, read, bind. rewrite HX. simpl. unfold lift.
  destruct (f a) as [[r a']|e]; [|reflexivity]. simpl. rewrite app_nil_r. reflexivity.
Qed.

Lemma determined_bind {A B} grid a (m : loc -> loc -> M A) (k : A -> loc -> loc -> M B) :
  determined grid a m ->
  (forall r a', determined grid a' (k r)) ->
  determined grid a (fun nc X => bind (m nc X) (fun r => k r nc X)).
Proof.
  intros [[[[r a1] l1]|e] Hm] Hk.
  - destruct (Hk r a1) as [o2 Hk2].
    exists (match o2 with
            | Ok (r2, a2, l2) => Ok (r2, a2, l1 ++ l2)
            | Raise e => Raise e
            end).
    intros nc X st H. unfold bind. rewrite (Hm nc X st H). simpl.
    rewrite Hk2 by (apply (footprint_insert _ _ _ _ _ _ H)).
    destruct o2 as [[[r2 a2] l2]|e]; [|reflexivity]. simpl.
    rewrite list_insert_insert_eq, app_assoc. reflexivity.
  - exists (Raise e). intros nc X st H. unfold bind. rewrite (Hm nc X st H). reflexivity.
Qed.

Lemma determined_for_each {A S} grid (l : list A) (body : loc -> loc -> A -> S -> M S) :
  (forall x s a, determined grid a (fun nc X => body nc X x s)) ->
  forall s a, determined grid a (fun nc X => for_each l (body nc X) s).
Proof.
  intros Hb. induction l as [|x l IH]; intros s a; simpl.
  - apply determined_ret.
  - apply (determined_bind grid a (fun nc X => body nc X x s)
             (fun s' nc X => for_each l (body nc X) s')); auto.
Qed.

Lemma determined_ext {A} grid a (m m' : loc -> loc -> M A) :
  (forall nc X st, m nc X st = m' nc X st) -> determined grid a m -> determined grid a m'.
Proof. intros E [o H]. exists o. intros nc X st Hf. rewrite <- E. auto. Qed.

Lemma determined_compute_scores grid a : determined grid a compute_scores.
Proof.
  unfold compute_scores.
  apply (determined_bind grid a (fun nc _ => read_ndI nc)
    (fun g nc X =>
       bind (for_each g (score_step X) (PCA "full" NC_None, FactorAnalysis NC_None, [], []))
            (fun '(_, _, ps, fs) => ret (ps, fs)))).
  - apply determined_read_grid.
  - intros g a'.
    apply (determined_bind grid a'
      (fun nc X => for_each g (score_step X) (PCA "full" NC_None, FactorAnalysis NC_None, [], []))
      (fun r _ _ => let '(_, _, ps, fs) := r in ret (ps, fs))).
    + apply (determined_for_each grid g (fun _ X => score_step X)).
      intros n [[[pca fa] ps] fs] a2. unfold score_step.
      apply (determined_bind grid a2
        (fun _ X => call_cross_val_score (set_n_components pca (NC_int n)) X)
        (fun s _ X =>
           bind (call_cross_val_score (set_n_components fa (NC_int n)) X)
             (fun s0 => ret (set_n_components pca (NC_int n),
                             set_n_components fa (NC_int n),
                             ps ++ [np_mean s], fs ++ [np_mean s0])))).
      * apply determined_call.
      * intros s a3.
        apply (determined_bind grid a3
          (fun _ X => call_cross_val_score (set_n_components fa (NC_int n)) X)
          (fun s0 _ _ => ret (set_n_components pca (NC_int n),
                              set_n_components fa (NC_int n),
                              ps ++ [np_mean s], fs ++ [np_mean s0]))).
        -- apply determined_call.
        -- intros s0 a4. apply determined_ret.
    + intros [[[pca fa] ps] fs] a2. apply determined_ret.
Qed.

Lemma determined_best_by_cv grid a scores :
  determined grid a (fun nc _ => best_by_cv nc scores).
Proof.
  unfold best_by_cv.
  apply (determined_bind grid a (fun _ _ => lift (np_argmax scores))
    (fun i nc _ => bind (read_ndI nc) (fun g => lift (getitem g i)))).
  - apply determined_lift.
  - intros i a'.
    apply (determined_bind grid a' (fun nc _ => read_ndI nc)
      (fun g _ _ => lift (getitem g i))).
    + apply determined_read_grid.
    + intros g a2. apply determined_lift.
Qed.

Lemma determined_shrunk_cov_score grid a :
  determined grid a (fun _ X => shrunk_cov_score X).
Proof.
  unfold shrunk_cov_score.
  apply (determined_bind grid a
    (fun _ X => call_with_array
                  (GridSearchCV_fit (ShrunkCovariance 0.1) "shrinkage" shrinkages) X)
    (fun best _ X => bind (call_cross_val_score best X) (fun s => ret (np_mean s)))).
  - apply determined_call.
  - intros best a'.
    apply (determined_bind grid a' (fun _ X => call_cross_val_score best X)
      (fun s _ _ => ret (np_mean s))).
    + apply determined_call.
    + intros s a2. apply determined_ret.
Qed.

Lemma determined_lw_score grid a : determined grid a (fun _ X => lw_score X).
Proof.
  unfold lw_score.
  apply (determined_bind grid a (fun _ X => call_cross_val_score LedoitWolf X)
    (fun s _ _ => ret (np_mean s))).
  - apply determined_call.
  - intros s a2. apply determined_ret.
Qed.

End Determined.

(** ** Two runs side by side *)

Section Together.
Context {L : Library}.
Variables (grid : list Z) (a0 : ndarray) (nc1 X1 nc2 X2 : loc) (st1 st2 : State).
Hypothesis F1 : footprint grid a0 nc1 X1 (heap st1).
Hypothesis F2 : footprint grid a0 nc2 X2 (heap st2).

Lemma upd_start : st1 = upd X1 a0 [] st1 /\ st2 = upd X2 a0 [] st2.
Proof.
  destruct F1 as (_ & _ & H1), F2 as (_ & _ & H2). unfold upd.
  rewrite !list_insert_id, !app_nil_r, !state_eta by assumption. auto.
Qed.

Lemma footprint_upd1 a lines : footprint grid a nc1 X1 (heap (upd X1 a lines st1)).
Proof. apply (footprint_insert _ _ _ _ _ _ F1). Qed.

Lemma footprint_upd2 a lines : footprint grid a nc2 X2 (heap (upd X2 a lines st2)).
Proof. apply (footprint_insert _ _ _ _ _ _ F2). Qed.

Lemma upd_upd X a lines a' lines' st :
  mkState (<[X := ONd a']> (heap (upd X a lines st))) (stdout (upd X a lines st) ++ lines')
  = upd X a' (lines ++ lines') st.
Proof. unfold upd. simpl. rewrite list_insert_insert_eq, app_assoc. reflexivity. Qed.

(** A step both runs take with the same determined computation. *)
Lemma together_bind {A B} (m : loc -> loc -> M A) (k1 k2 : A -> M B)
    (P : B -> B -> Prop) a lines :
  (forall a, determined grid a m) ->
  (forall r a' lines',
     together X1 X2 st1 st2 P
       (k1 r (upd X1 a' lines' st1)) (k2 r (upd X2 a' lines' st2))) ->
  together X1 X2 st1 st2 P
    (bind (m nc1 X1) k1 (upd X1 a lines st1))
    (bind (m nc2 X2) k2 (upd X2 a lines st2)).
Proof.
  intros Hm Hk. destruct (Hm a) as [o Ho]. unfold bind.
  rewrite (Ho nc1 X1 _ (footprint_upd1 a lines)), (Ho nc2 X2 _ (footprint_upd2 a lines)).
  destruct o as [[[r a'] l']|e]; unfold effect; [|reflexivity].
  rewrite !upd_upd. apply Hk.
Qed.

Lemma together_print {B} line (k1 k2 : unit -> M B) (P : B -> B -> Prop) a lines :
  together X1 X2 st1 st2 P
    (k1 tt (upd X1 a (lines ++ [line]) st1))
    (k2 tt (upd X2 a (lines ++ [line]) st2)) ->
  together X1 X2 st1 st2 P
    (bind (print line) k1 (upd X1 a lines st1))
    (bind (print line) k2 (upd X2 a lines st2)).
Proof.
  unfold bind, print, upd. simpl. rewrite <- !app_assoc. auto.
Qed.

End Together.

Section Append.
Context {L : Library}.

Lemma bind_data_append {B} data i t :
  (i < length data)%nat ->
  exists data', length data' = length data /\
    forall (k : list (list Scatter) -> M B) st,
      bind (data_append data i t) k st = k data' st.
Proof.
  intros Hi. destruct (lookup_lt_is_Some_2 data i Hi) as [row Hrow].
  exists (<[i := row ++ [t]]> data). split; [apply length_insert|].
  intros k st. unfold bind, data_append. rewrite Hrow. reflexivity.
Qed.

End Append.

Section AnalyseTogether.
Context {L : Library}.

Lemma together_start {A} grid a0 nc1 X1 nc2 X2 st1 st2 (P : A -> A -> Prop)
    (m1 m2 : M A) :
  footprint grid a0 nc1 X1 (heap st1) ->
  footprint grid a0 nc2 X2 (heap st2) ->
  together X1 X2 st1 st2 P (m1 (upd X1 a0 [] st1)) (m2 (upd X2 a0 [] st2)) ->
  together X1 X2 st1 st2 P (m1 st1) (m2 st2).
Proof.
  intros F1 F2 H. destruct (upd_start grid a0 nc1 X1 nc2 X2 st1 st2 F1 F2) as [E1 E2].
  rewrite <- E1, <- E2 in H. exact H.
Qed.

Lemma determined_marker_range grid a ps fs :
  determined grid a (fun _ _ => marker_range ps fs).
Proof.
  unfold marker_range.
  apply (determined_bind grid a (fun _ _ => lift (py_min_float ps))
    (fun lo _ _ => bind (lift (py_max_float fs))
                     (fun hi => ret [PrimFloat.sub lo 1; PrimFloat.add hi 1]))).
  - apply determined_lift.
  - intros lo a'.
    apply (determined_bind grid a' (fun _ _ => lift (py_max_float fs))
      (fun hi _ _ => ret [PrimFloat.sub lo 1; PrimFloat.add hi 1])).
    + apply determined_lift.
    + intros hi a2. apply determined_ret.
Qed.

Lemma determined_grid_range grid a : determined grid a (fun nc _ => grid_range nc).
Proof.
  unfold grid_range.
  apply (determined_bind grid a (fun nc _ => read_ndI nc)
    (fun g _ _ => bind (lift (py_min_int g))
                    (fun lo => bind (lift (py_max_int g)) (fun hi => ret (XList [lo; hi]))))).
  - apply determined_read_grid.
  - intros g a'.
    apply (determined_bind grid a' (fun _ _ => lift (py_min_int g))
      (fun lo _ _ => bind (lift (py_max_int g)) (fun hi => ret (XList [lo; hi])))).
    + apply determined_lift.
    + intros lo a2.
      apply (determined_bind grid a2 (fun _ _ => lift (py_max_int g))
        (fun hi _ _ => ret (XList [lo; hi]))).
      * apply determined_lift.
      * intros hi a3. apply determined_ret.
Qed.

Lemma analyse_together grid a0 nc1 X1 nc2 X2 st1 st2 title data1 i1 sel1 data2 i2 sel2 :
  footprint grid a0 nc1 X1 (heap st1) ->
  footprint grid a0 nc2 X2 (heap st2) ->
  (i1 < length data1)%nat -> (i2 < length data2)%nat ->
  together X1 X2 st1 st2 (same_pass data1 i1 sel1 data2 i2 sel2)
    (analyse nc1 X1 title (data1, i1, sel1) st1)
    (analyse nc2 X2 title (data2, i2, sel2) st2).
Proof.
  intros F1 F2 Hi1 Hi2.
  apply (together_start grid a0 nc1 X1 nc2 X2 st1 st2 _ _ _ F1 F2).
  unfold analyse.
  apply (together_bind grid a0 nc1 X1 nc2 X2 st1 st2 F1 F2 (fun nc X => compute_scores nc X));
    [intros; apply determined_compute_scores | intros [ps fs] a1 l1].
  apply (together_bind grid a0 nc1 X1 nc2 X2 st1 st2 F1 F2 (fun nc _ => best_by_cv nc ps));
    [intros; apply determined_best_by_cv | intros n1 a2 l2].
  apply (together_bind grid a0 nc1 X1 nc2 X2 st1 st2 F1 F2 (fun nc _ => best_by_cv nc fs));
    [intros; apply determined_best_by_cv | intros n2 a3 l3].
  apply (together_bind grid a0 nc1 X1 nc2 X2 st1 st2 F1 F2
           (fun _ X => call_with_array (PCA_fit (PCA "full" NC_mle)) X));
    [intros; apply determined_call | intros n3 a4 l4].
  do 4 apply together_print.
  repeat match goal with
  | |- together _ _ _ _ _ (bind (data_append ?d1 _ ?t1) _ _)
                          (bind (data_append ?d2 _ ?t2) _ _) =>
      let E1 := fresh "E" in let E2 := fresh "E" in
      destruct (bind_data_append (B := list (list Scatter) * nat * list Selection)
                  d1 i1 t1) as (? & ? & E1); [lia|];
      destruct (bind_data_append (B := list (list Scatter) * nat * list Selection)
                  d2 i2 t2) as (? & ? & E2); [lia|];
      rewrite E1, E2; clear E1 E2
  | |- together _ _ _ _ _ (bind (marker_range ?p ?f) _ _) _ =>
      apply (together_bind grid a0 nc1 X1 nc2 X2 st1 st2 F1 F2
               (fun _ _ => marker_range p f));
      [intros; apply determined_marker_range | intros ? ? ?]
  | |- together _ _ _ _ _ (bind (grid_range _) _ _) _ =>
      apply (together_bind grid a0 nc1 X1 nc2 X2 st1 st2 F1 F2
               (fun nc _ => grid_range nc));
      [intros; apply determined_grid_range | intros ? ? ?]
  | |- together _ _ _ _ _ (bind (shrunk_cov_score _) _ _) _ =>
      apply (together_bind grid a0 nc1 X1 nc2 X2 st1 st2 F1 F2
               (fun _ X => shrunk_cov_score X));
      [intros; apply determined_shrunk_cov_score | intros ? ? ?]
  | |- together _ _ _ _ _ (bind (lw_score _) _ _) _ =>
      apply (together_bind grid a0 nc1 X1 nc2 X2 st1 st2 F1 F2
               (fun _ X => lw_score X));
      [intros; apply determined_lw_score | intros ? ? ?]
  end.
  unfold ret, together, same_pass. split; [|eauto].
  eexists. repeat split; lia.
Qed.

End AnalyseTogether.

Section LoopTogether.
Context {L : Library}.

Lemma main_loop_together grid ah at_ d1 nc1 st1 d2 nc2 st2 :
  layout grid ah at_ d1 nc1 (heap st1) ->
  layout grid ah at_ d2 nc2 (heap st2) ->
  match main_loop d1 nc1 st1, main_loop d2 nc2 st2 with
  | Raise e1, Raise e2 => e1 = e2
  | Ok (g1, _), Ok (g2, _) =>
      g_selected g1 = g_selected g2 /\
      length (g_selected g1) = 2%nat /\
      length (g_traces g1) = 2%nat /\ length (g_traces g2) = 2%nat /\
      g_X g1 = X_hetero d1 /\ g_X g2 = X_hetero d2
  | _, _ => False
  end.
Proof.
  intros (Hn1a & Hn1b & Hn1c & Hnc1 & Hh1 & Ht1) (Hn2a & Hn2b & Hn2c & Hnc2 & Hh2 & Ht2).
  rewrite !main_loop_unfold.
  assert (P1 := analyse_together grid ah nc1 (X_homo d1) nc2 (X_homo d2) st1 st2
                  "Homoscedastic Noise" [[]; []] 0%nat [] [[]; []] 0%nat []).
  unfold together, footprint in P1.
  specialize (P1 ltac:(auto) ltac:(auto) ltac:(simpl; lia) ltac:(simpl; lia)).
  destruct (analyse nc1 (X_homo d1) _ _ st1) as [[[[da1 j1] s1] st1']|e1],
           (analyse nc2 (X_homo d2) _ _ st2) as [[[[da2 j2] s2] st2']|e2];
    try contradiction; [|exact P1].
  destruct P1 as ((s & -> & -> & -> & -> & Hl1 & Hl2) & a' & lines & -> & ->).
  assert (P2 := analyse_together grid at_ nc1 (X_hetero d1) nc2 (X_hetero d2)
                  (upd (X_homo d1) a' lines st1) (upd (X_homo d2) a' lines st2)
                  "Heteroscedastic Noise" da1 1%nat ([] ++ [s]) da2 1%nat ([] ++ [s])).
  unfold together, footprint in P2. simpl in Hl1, Hl2. simpl heap in P2.
  rewrite !list_lookup_insert_ne in P2 by congruence.
  specialize (P2 ltac:(auto) ltac:(auto) ltac:(lia) ltac:(lia)).
  destruct (analyse nc1 (X_hetero d1) _ _ _) as [[[[db1 k1] t1] st1'']|e1],
           (analyse nc2 (X_hetero d2) _ _ _) as [[[[db2 k2] t2] st2'']|e2];
    try contradiction; [|exact P2].
  destruct P2 as ((s' & -> & -> & -> & -> & Hm1 & Hm2) & _).
  simpl. repeat split; congruence.
Qed.

End LoopTogether.

(** ** The data cell on any store

    The cell allocates six objects after whatever the store holds and
    touches nothing else; what the objects are does not depend on the
    store. *)

Section Creation.
Context {L : Library}.

Lemma bind_alloc {B} o (k : loc -> M B) h objs out :
  bind (alloc o) k (mkState (h ++ objs) out)
  = k (length h + length objs)%nat (mkState (h ++ (objs ++ [o])) out).
Proof. unfold bind, alloc. simpl. rewrite length_app, app_assoc. reflexivity. Qed.

Lemma read_at (j : nat) h objs out :
  read (length h + j)%nat (mkState (h ++ objs) out) =
    match objs !! j with
    | Some o => Ok (o, mkState (h ++ objs) out)
    | None => Raise NameError
    end.
Proof.
  unfold read. simpl. rewrite lookup_app_r by lia.
  replace (length h + j - length h)%nat with j by lia. reflexivity.
Qed.

Lemma write_at j o h objs out :
  write (length h + j)%nat o (mkState (h ++ objs) out)
  = Ok (tt, mkState (h ++ <[j := o]> objs) out).
Proof.
  unfold write. simpl. rewrite insert_app_r. reflexivity.
Qed.

Lemma bind_rng_randn {B} j d0 d1 (k : matrix -> M B) h objs out s :
  objs !! j = Some (ORng s) ->
  bind (rng_randn (length h + j)%nat d0 d1) k (mkState (h ++ objs) out) =
    match mt_randn s d0 d1 with
    | Ok (a, s') => k a (mkState (h ++ <[j := ORng s']> objs) out)
    | Raise e => Raise e
    end.
Proof.
  intros Hj. unfold rng_randn, read_rng, bind, lift, ret. rewrite read_at, Hj.
  destruct (mt_randn s d0 d1) as [[a s']|e]; [|reflexivity].
  rewrite write_at. reflexivity.
Qed.

Lemma bind_rng_rand {B} j d0 (k : vector -> M B) h objs out s :
  objs !! j = Some (ORng s) ->
  bind (rng_rand (length h + j)%nat d0) k (mkState (h ++ objs) out) =
    match mt_rand s d0 with
    | Ok (a, s') => k a (mkState (h ++ <[j := ORng s']> objs) out)
    | Raise e => Raise e
    end.
Proof.
  intros Hj. unfold rng_rand, read_rng, bind, lift, ret. rewrite read_at, Hj.
  destruct (mt_rand s d0) as [[a s']|e]; [|reflexivity].
  rewrite write_at. reflexivity.
Qed.

Lemma bind_read_nd2 {B} j (k : matrix -> M B) h objs out m :
  objs !! j = Some (ONd (Nd2 m)) ->
  bind (read_nd2 (length h + j)%nat) k (mkState (h ++ objs) out)
  = k m (mkState (h ++ objs) out).
Proof.
  intros Hj. unfold read_nd2, read_nd, bind. rewrite read_at, Hj. reflexivity.
Qed.

Lemma bind_read_nd1 {B} j (k : vector -> M B) h objs out v :
  objs !! j = Some (ONd (Nd1 v)) ->
  bind (read_nd1 (length h + j)%nat) k (mkState (h ++ objs) out)
  = k v (mkState (h ++ objs) out).
Proof.
  intros Hj. unfold read_nd1, read_nd, bind. rewrite read_at, Hj. reflexivity.
Qed.

Lemma bind_lift {A B} (r : result A) (k : A -> M B) st :
  bind (lift r) k st = match r with Ok a => k a st | Raise e => Raise e end.
Proof. unfold bind, lift. destruct r; reflexivity. Qed.

Ltac run_data :=
  repeat first
    [ rewrite bind_alloc; cbn [length app Nat.add]
    | erewrite bind_rng_randn by reflexivity; cbn [list_insert]
    | erewrite bind_rng_rand by reflexivity; cbn [list_insert]
    | erewrite bind_read_nd2 by reflexivity
    | erewrite bind_read_nd1 by reflexivity
    | rewrite bind_lift
    | match goal with
      | E : ?r = _ |- context [match ?r with _ => _ end] => rewrite E
      end ].

Lemma create_data_determined :
  exists o,
    (forall st,
       create_data st =
         match o with
         | Ok v =>
             Ok (data_at (length (heap st)),
                 mkState (heap st ++ data_objects v) (stdout st))
         | Raise e => Raise e
         end) /\
    match o with Ok v => synthesized v | Raise _ => True end.
Proof.
  assert (S0 : forall st, st = mkState (heap st ++ []) (stdout st))
    by (intros; rewrite app_nil_r, state_eta; reflexivity).
  destruct (mt_randn (RandomState_init 42) n_features n_features) as [[A s1]|e] eqn:E1.
  2:{ exists (Raise e). split; [|exact I]. intros st. rewrite (S0 st) at 1.
      unfold create_data. run_data. reflexivity. }
  destruct (linalg_svd A) as [[[Uv sv] Vh]|e] eqn:E2.
  2:{ exists (Raise e). split; [|exact I]. intros st. rewrite (S0 st) at 1.
      unfold create_data. run_data. reflexivity. }
  destruct (mt_randn s1 n_samples rank) as [[B s2]|e] eqn:E3.
  2:{ exists (Raise e). split; [|exact I]. intros st. rewrite (S0 st) at 1.
      unfold create_data. run_data. reflexivity. }
  destruct (np_dot B (transpose (slice_cols Uv rank))) as [Xv|e] eqn:E4.
  2:{ exists (Raise e). split; [|exact I]. intros st. rewrite (S0 st) at 1.
      unfold create_data. run_data. reflexivity. }
  destruct (mt_randn s2 n_samples n_features) as [[N1 s3]|e] eqn:E5.
  2:{ exists (Raise e). split; [|exact I]. intros st. rewrite (S0 st) at 1.
      unfold create_data. run_data. reflexivity. }
  destruct (elementwise2 PrimFloat.add Xv (scalar_mul2 sigma N1)) as [H|e] eqn:E6.
  2:{ exists (Raise e). split; [|exact I]. intros st. rewrite (S0 st) at 1.
      unfold create_data. run_data. reflexivity. }
  destruct (mt_rand s3 n_features) as [[u s4]|e] eqn:E7.
  2:{ exists (Raise e). split; [|exact I]. intros st. rewrite (S0 st) at 1.
      unfold create_data. run_data. reflexivity. }
  destruct (mt_randn s4 n_samples n_features) as [[N2 s5]|e] eqn:E8.
  2:{ exists (Raise e). split; [|exact I]. intros st. rewrite (S0 st) at 1.
      unfold create_data. run_data. reflexivity. }
  destruct (elementwise21 PrimFloat.mul N2
              (add_scalar1 (scalar_mul1 sigma u) (PrimFloat.div sigma 2)))
    as [P|e] eqn:E9.
  2:{ exists (Raise e). split; [|exact I]. intros st. rewrite (S0 st) at 1.
      unfold create_data. run_data. reflexivity. }
  destruct (elementwise2 PrimFloat.add Xv P) as [T|e] eqn:E10.
  2:{ exists (Raise e). split; [|exact I]. intros st. rewrite (S0 st) at 1.
      unfold create_data. run_data. reflexivity. }
  exists (Ok (s5, Uv, Xv, H, add_scalar1 (scalar_mul1 sigma u) (PrimFloat.div sigma 2), T)).
  split.
  - intros st. rewrite (S0 st) at 1. unfold create_data. run_data.
    unfold ret, data_at. rewrite Nat.add_0_r. reflexivity.
  - exists s2, N1, s3, u, s4, N2, P. auto 10.
Qed.

End Creation.

(** ** Broadcasting and the heteroscedastic noise *)

Lemma all_ok_Ok {C} (l : list (result C)) cs : all_ok l = Ok cs -> l = map Ok cs.
Proof.
  revert cs. induction l as [|r l IH]; intros cs; simpl.
  - intros [= <-]. reflexivity.
  - destruct r as [c|e]; [|discriminate].
    destruct (all_ok l) as [cs'|e]; [|discriminate].
    intros [= <-]. simpl. rewrite (IH cs' eq_refl). reflexivity.
Qed.

Lemma broadcast_lookup {A B C} (f : A -> B -> result C) u v w (j : nat) a b :
  length u = length v -> broadcast f u v = Ok w ->
  u !! j = Some a -> v !! j = Some b ->
  exists c, w !! j = Some c /\ f a b = Ok c.
Proof.
  intros Hlen Hb Hu Hv.
  assert (Hz : all_ok (zip_with f u v) = Ok w).
  { unfold broadcast in Hb.
    apply Nat.eqb_eq in Hlen.
    destruct u as [|a0 [|a1 u']], v as [|b0 [|b1 v']]; try discriminate; try exact Hb.
    rewrite Hlen in Hb. exact Hb. }
  apply all_ok_Ok in Hz.
  assert (Hj : zip_with f u v !! j = Some (f a b)).
  { rewrite lookup_zip_with, Hu. simpl. rewrite Hv. reflexivity. }
  rewrite Hz, list_lookup_fmap in Hj.
  destruct (w !! j) as [c|]; [|discriminate]. injection Hj as Hj. eauto.
Qed.

Lemma elementwise1_lookup op u v w (j : nat) a b :
  length u = length v -> elementwise1 op u v = Ok w ->
  u !! j = Some a -> v !! j = Some b -> w !! j = Some (op a b).
Proof.
  intros Hlen Hw Hu Hv.
  destruct (broadcast_lookup _ _ _ _ _ _ _ Hlen Hw Hu Hv) as (c & Hc & [= <-]).
  exact Hc.
Qed.

Lemma elementwise21_lookup op a v p (i : nat) r :
  elementwise21 op a v = Ok p -> a !! i = Some r ->
  exists pr, p !! i = Some pr /\ elementwise1 op r v = Ok pr.
Proof.
  intros Hp Hr.
  assert (Hz : all_ok (map (fun r => elementwise1 op r v) a) = Ok p).
  { unfold elementwise21, broadcast in Hp. destruct a as [|a0 [|a1 a']]; exact Hp. }
  apply all_ok_Ok in Hz.
  assert (Hi : map (fun r => elementwise1 op r v) a !! i = Some (elementwise1 op r v))
    by (rewrite list_lookup_fmap, Hr; reflexivity).
  rewrite Hz, list_lookup_fmap in Hi.
  destruct (p !! i) as [pr|]; [|discriminate]. injection Hi as Hi. eauto.
Qed.

Section Noise.
Context {L : Library}.

(** The noise scales are [sigma * u + sigma / 2], entry by entry, and
    where no operand is stretched every entry of [X_hetero] is the entry of
    [X] plus a draw times the scale of its own feature. *)
Lemma hetero_noise_per_feature st d st' :
  create_data st = Ok (d, st') ->
  exists x sg xt u n2,
    heap st' !! X d = Some (ONd (Nd2 x)) /\
    heap st' !! sigmas d = Some (ONd (Nd1 sg)) /\
    heap st' !! X_hetero d = Some (ONd (Nd2 xt)) /\
    length sg = length u /\
    (forall (j : nat) uj, u !! j = Some uj ->
       sg !! j = Some (PrimFloat.add (PrimFloat.mul sigma uj) (PrimFloat.div sigma 2))) /\
    (length x = length n2 ->
     forall (i : nat) rx rn, x !! i = Some rx -> n2 !! i = Some rn ->
       length rn = length sg -> length rx = length sg ->
       exists rt, xt !! i = Some rt /\
         forall (j : nat) a n s,
           rx !! j = Some a -> rn !! j = Some n -> sg !! j = Some s ->
           rt !! j = Some (PrimFloat.add a (PrimFloat.mul n s))).
Proof.
  destruct create_data_determined as [[v|e] [Ho Hs]]; rewrite Ho; [|discriminate].
  destruct v as [[[[[s u0] x] xh] sg] xt].
  destruct Hs as (s2 & n1 & s3 & u & s4 & n2 & p & _ & _ & Hu & -> & Hn2 & Hp & Ht).
  intros [= <- <-]. exists x, (add_scalar1 (scalar_mul1 sigma u) (PrimFloat.div sigma 2)), xt, u, n2.
  unfold data_at, data_objects. cbn [X sigmas X_hetero heap].
  rewrite !lookup_app_r by lia.
  replace (length (heap st) + 2 - length (heap st))%nat with 2%nat by lia.
  replace (length (heap st) + 4 - length (heap st))%nat with 4%nat by lia.
  replace (length (heap st) + 5 - length (heap st))%nat with 5%nat by lia.
  split; [reflexivity|]. split; [reflexivity|]. split; [reflexivity|].
  split; [unfold add_scalar1, scalar_mul1; rewrite !length_map; reflexivity|].
  split.
  - intros j uj Hj. unfold add_scalar1, scalar_mul1.
    rewrite !list_lookup_fmap, Hj. reflexivity.
  - intros Hlen i rx rn Hrx Hrn Hl1 Hl2.
    destruct (elementwise21_lookup _ _ _ _ _ _ Hp Hrn) as (pr & Hpr & Hmul).
    assert (Hlp : length p = length n2).
    { unfold elementwise21, broadcast in Hp.
      assert (Hz : all_ok (map (fun r => elementwise1 PrimFloat.mul r
                      (add_scalar1 (scalar_mul1 sigma u) (PrimFloat.div sigma 2))) n2) = Ok p)
        by (destruct n2 as [|a0 [|a1 a']]; exact Hp).
      apply all_ok_Ok in Hz. apply (f_equal length) in Hz.
      rewrite !length_map in Hz. congruence. }
    assert (Hxp : length x = length p) by congruence.
    destruct (broadcast_lookup _ _ _ _ _ _ _ Hxp Ht Hrx Hpr) as (rt & Hrt & Hadd).
    exists rt. split; [assumption|]. intros j a n s' Ha Hn Hs'.
    assert (Hprj : pr !! j = Some (PrimFloat.mul n s'))
      by (apply (elementwise1_lookup _ _ _ _ _ _ _ Hl1 Hmul Hn Hs')).
    assert (Hlpr : length pr = length rn).
    { unfold elementwise1 in Hmul.
      assert (Hz : all_ok (zip_with (fun x y => Ok (PrimFloat.mul x y)) rn
                      (add_scalar1 (scalar_mul1 sigma u) (PrimFloat.div sigma 2))) = Ok pr).
      { unfold broadcast in Hmul.
        apply Nat.eqb_eq in Hl1.
        destruct rn as [|a0 [|a1 rn']],
          (add_scalar1 (scalar_mul1 sigma u) (PrimFloat.div sigma 2)) as [|b0 [|b1 v']];
          try discriminate; try exact Hmul.
        rewrite Hl1 in Hmul. exact Hmul. }
      apply all_ok_Ok in Hz. apply (f_equal length) in Hz.
      rewrite length_zip_with, length_map in Hz. lia. }
    assert (Hrp : length rx = length pr) by congruence.
    apply (elementwise1_lookup _ _ _ _ _ _ _ Hrp Hadd Ha Hprj).
Qed.

End Noise.

(** The strict bound [sigmas[j] < 3 * sigma / 2] rests on the draw: at the
    largest binary64 value below one, which the uniform generator's
    53-bit construction can return, the sum rounds to the bound itself. *)
Example noise_scale_rounds_to_upper_bound :
  PrimFloat.ltb 0x1.fffffffffffffp-1 1 = true /\
  PrimFloat.add (PrimFloat.mul sigma 0x1.fffffffffffffp-1) (PrimFloat.div sigma 2)
  = PrimFloat.div (PrimFloat.mul 3 sigma) 2.
Proof. split; reflexivity. Qed.

(** ** Determinism *)

Section Deterministic.
Context {L : Library}.

Lemma datasets_determined :
  exists o, forall st, datasets_of (create_data st) = o.
Proof.
  destruct create_data_determined as [[v|e] [Ho _]].
  - destruct v as [[[[[s u] x] xh] sg] xt].
    exists (Ok (Some (ONd (Nd2 xh)), Some (ONd (Nd2 xt)))). intros st.
    rewrite Ho. unfold datasets_of, data_at, data_objects. cbn [X_homo X_hetero heap].
    rewrite !lookup_app_r by lia.
    replace (length (heap st) + 3 - length (heap st))%nat with 3%nat by lia.
    replace (length (heap st) + 5 - length (heap st))%nat with 5%nat by lia.
    reflexivity.
  - exists (Raise e). intros st. rewrite Ho. reflexivity.
Qed.

Lemma notebook_unfold st :
  notebook st =
    match create_data st with
    | Raise e => Raise e
    | Ok (d, s1) =>
        match create_grid s1 with
        | Raise e => Raise e
        | Ok (nc, s2) =>
            match main_loop d nc s2 with
            | Raise e => Raise e
            | Ok (g, s3) =>
                match g_traces g with
                | t0 :: t1 :: _ =>
                    Ok (g,
                        mkFigure t0 "Homoscedastic Noise" "nb of components" "CV scores",
                        mkFigure t1 "Heteroscedastic Noise" "nb of components" "CV scores",
                        s3)
                | _ => Raise IndexError
                end
            end
        end
    end.
Proof.
  unfold notebook.
  generalize create_data, create_grid, main_loop. intros m1 m2 m3.
  unfold bind. destruct (m1 st) as [[d s1]|e]; [|reflexivity].
  destruct (m2 s1) as [[nc s2]|e]; [|reflexivity].
  destruct (m3 d nc s2) as [[g s3]|e]; [|reflexivity].
  unfold figure, bind, lift, getitem, ret.
  destruct (g_traces g) as [|t0 [|t1 ts]]; reflexivity.
Qed.

Lemma selections_determined :
  exists o, forall st, selections_of (notebook st) = o.
Proof.
  destruct create_data_determined as [[v|e] [Ho _]].
  2:{ exists (Raise e). intros st. rewrite notebook_unfold, Ho. reflexivity. }
  destruct v as [[[[[s u] x] xh] sg] xt].
  pose (st0 := mkState [] []).
  exists (selections_of (notebook st0)). intros st.
  rewrite !notebook_unfold, !Ho, !create_grid_run. cbn [heap stdout].
  assert (Hl : forall st : State,
    layout reference_grid (Nd2 xh) (Nd2 xt) (data_at (length (heap st)))
      (length (heap st ++ data_objects (s, u, x, xh, sg, xt)))
      ((heap st ++ data_objects (s, u, x, xh, sg, xt)) ++ [ONd (NdI reference_grid)])).
  { intros st'. unfold layout, data_at, data_objects. cbn [X_homo X_hetero].
    rewrite length_app. cbn [length].
    repeat split; try lia.
    - rewrite lookup_app_r by (rewrite length_app; cbn [length]; lia).
      rewrite length_app. cbn [length].
      replace (_ - _)%nat with 0%nat by lia. reflexivity.
    - rewrite <- app_assoc, lookup_app_r by lia.
      replace (_ - _)%nat with 3%nat by lia. reflexivity.
    - rewrite <- app_assoc, lookup_app_r by lia.
      replace (_ - _)%nat with 5%nat by lia. reflexivity. }
  pose proof (main_loop_together reference_grid (Nd2 xh) (Nd2 xt)
                _ _ (mkState _ (stdout st)) _ _ (mkState _ (stdout st0))
                (Hl st) (Hl st0)) as T.
  cbn [heap stdout] in T.
  destruct (main_loop (data_at (length (heap st))) _ _) as [[g1 s1]|e1],
           (main_loop (data_at (length (heap st0))) _ _) as [[g2 s2]|e2];
    try contradiction.
  - destruct T as (Hsel & _ & Ht1 & Ht2 & _).
    destruct (g_traces g1) as [|a1 [|b1 r1]]; try discriminate.
    destruct (g_traces g2) as [|a2 [|b2 r2]]; try discriminate.
    simpl. congruence.
  - simpl. congruence.
Qed.

End Deterministic.

(** * The claims *)

(** The toy library never writes into the array it is given. *)
Lemma Toy_readonly : ReadOnly Toy.library.
Proof.
  split; simpl.
  - intros est a s a'. unfold Toy.cv. destruct a as [v|[|row rows]|v]; try discriminate.
    intros [= _ <-]. reflexivity.
  - intros est p g a b a'. unfold Toy.grid_search.
    destruct est; try discriminate. destruct g; try discriminate.
    intros [= _ <-]. reflexivity.
  - intros est a n a'. unfold Toy.fit.
    destruct est as [solver [| |]| | |]; try discriminate.
    destruct a as [v|[|row rows]|v]; try discriminate.
    intros [= _ <-]. reflexivity.
Qed.

Section Claims.
Context {L : Library}.

(** C1. With the seed fixed at 42 the pipeline is deterministic: whatever
    the interpreter's store holds when a run starts, cell [3] produces the
    same two datasets [X_homo] and [X_hetero], bit for bit, and the whole
    notebook yields the same PCA and FA score sequences and the same
    selected ranks ([n_components_pca], [n_components_fa],
    [n_components_pca_mle]) for both datasets, or stops with the same
    exception.  In particular a second run in the state the first one left
    repeats the first. *)
Theorem pipeline_deterministic (st1 st2 : State) :
  datasets_of (create_data st1) = datasets_of (create_data st2) /\
  selections_of (notebook st1) = selections_of (notebook st2) /\
  (forall r st1', notebook st1 = Ok (r, st1') ->
     datasets_of (create_data st1') = datasets_of (create_data st1) /\
     selections_of (notebook st1') = selections_of (notebook st1)).
Proof.
  destruct datasets_determined as [od Hd], selections_determined as [os Hs].
  repeat split; rewrite ?Hd, ?Hs; reflexivity.
Qed.

Context {RO : ReadOnly L}.

(** C2. For every dataset, [compute_scores] returns two score sequences
    whose length is that of the shared grid [n_components], and for every
    index [i] the [i]-th entry of each is the mean of the cross-validation
    scores of the respective model with exactly [n_components[i]]
    components on that dataset; the only way it does not return is an
    exception raised by one of those library calls. *)
Theorem compute_scores_aligned (st : State) (nc X : loc) (grid : list Z) (a : ndarray) :
  heap st !! nc = Some (ONd (NdI grid)) ->
  heap st !! X = Some (ONd a) ->
  match compute_scores nc X st with
  | Ok ((pca_scores, fa_scores), st') =>
      st' = st /\
      length pca_scores = length grid /\ length fa_scores = length grid /\
      forall i n, grid !! i = Some n ->
        exists sp sf,
          pca_scores !! i = Some sp /\ scored pca_with a n sp /\
          fa_scores !! i = Some sf /\ scored fa_with a n sf
  | Raise e =>
      exists n, n ∈ grid /\
        (cross_val_score (pca_with n) a = Raise e \/
         cross_val_score (fa_with n) a = Raise e)
  end.
Proof.
  intros Hnc HX. pose proof (compute_scores_run nc X st grid a Hnc HX) as H.
  destruct (compute_scores nc X st) as [[[ps fs] st']|e]; [|assumption].
  destruct H as (-> & Hp & Hf). split; [reflexivity|].
  split; [symmetry; eapply Forall2_length; eassumption|].
  split; [symmetry; eapply Forall2_length; eassumption|].
  intros i n Hi.
  destruct (Forall2_lookup_l _ _ _ _ _ Hp Hi) as (sp & Hsp & Hscp).
  destruct (Forall2_lookup_l _ _ _ _ _ Hf Hi) as (sf & Hsf & Hscf).
  eauto 10.
Qed.

(** C6. For every dataset, the cross-validated best component count the
    main loop reports for each model family is the grid value at the index
    [np.argmax] returns for that family's score sequence, the first maximum
    of the sequence, and each score is the mean of the fold scores of the
    model with the grid's component count: the pass appends one selection
    and prints its counts. *)
Theorem best_count_is_argmax (st st' : State) (nc X : loc) (title : string)
    (grid : list Z) (a : ndarray)
    (data data' : list (list Scatter)) (i i' : nat) (sel sel' : list Selection) :
  heap st !! nc = Some (ONd (NdI grid)) ->
  heap st !! X = Some (ONd a) ->
  analyse nc X title (data, i, sel) st = Ok ((data', i', sel'), st') ->
  exists s ip ifa,
    sel' = sel ++ [s] /\
    Forall2 (scored pca_with a) grid (pca_scores s) /\
    Forall2 (scored fa_with a) grid (fa_scores s) /\
    np_argmax (pca_scores s) = Ok ip /\ first_maximum (pca_scores s) ip /\
    grid !! ip = Some (n_components_pca s) /\
    np_argmax (fa_scores s) = Ok ifa /\ first_maximum (fa_scores s) ifa /\
    grid !! ifa = Some (n_components_fa s) /\
    stdout st' = stdout st ++ report title s.
Proof.
  intros Hnc HX H.
  destruct (analyse_Ok _ _ _ _ _ _ _ _ _ _ _ _ _ Hnc HX H)
    as (s & ip & ifa & Hsel & _ & Hp & Hf & Hip & Hgp & Hifa & Hgf & _ & _ & Hout).
  exists s, ip, ifa. repeat split; auto using np_argmax_spec.
Qed.

(** C7. For every dataset, [shrunk_cov_score] hands the grid search of the
    shrinkage of a [ShrunkCovariance] estimator exactly 30 candidates, the
    powers of ten of 30 evenly spaced exponents from -2 to 0, with the
    library's default selection criterion; it then cross-validates the
    search's best estimator on the same dataset and returns one scalar, the
    mean of the fold scores. *)
Theorem shrunk_cov_score_search (st : State) (X : loc) (a : ndarray) :
  heap st !! X = Some (ONd a) ->
  length shrinkages = 30%nat /\
  shrinkages !! 0%nat = Some (np_power 10 (-2)) /\
  shrinkages !! 29%nat = Some (np_power 10 0) /\
  (forall k, (k < 29)%nat ->
     shrinkages !! k =
       Some (np_power 10
               (PrimFloat.add
                  (PrimFloat.mul (float_of_nat k)
                     (PrimFloat.div (PrimFloat.sub 0 (-2)) 29)) (-2)))) /\
  match shrunk_cov_score X st with
  | Ok (score, st') =>
      st' = st /\
      exists best folds,
        GridSearchCV_fit (ShrunkCovariance 0.1) "shrinkage" shrinkages a = Ok (best, a) /\
        cross_val_score best a = Ok (folds, a) /\
        score = np_mean folds
  | Raise e =>
      GridSearchCV_fit (ShrunkCovariance 0.1) "shrinkage" shrinkages a = Raise e \/
      exists best,
        GridSearchCV_fit (ShrunkCovariance 0.1) "shrinkage" shrinkages a = Ok (best, a) /\
        cross_val_score best a = Raise e
  end.
Proof.
  intros HX. split; [reflexivity|]. split; [reflexivity|]. split; [reflexivity|].
  split.
  - intros k Hk. do 29 (destruct k as [|k]; [reflexivity|]). lia.
  - unfold shrunk_cov_score. unfold bind at 1.
    unfold call_with_array, read_nd, read, bind at 1 2. rewrite HX. cbn [bind ret].
    unfold bind at 1, lift at 1.
    destruct (GridSearchCV_fit _ _ _ a) as [[best a']|e] eqn:Eg; [|auto].
    pose proof (GridSearchCV_fit_readonly _ _ _ _ _ _ Eg) as ->.
    unfold bind at 1, write, ret at 1. rewrite list_insert_id, state_eta by assumption.
    unfold bind. rewrite (call_cross_val_score_run best X st a HX).
    destruct (cross_val_score best a) as [[folds a']|e] eqn:Ec; [|eauto].
    pose proof (cross_val_score_readonly _ _ _ _ Ec) as ->.
    unfold ret. eauto 10.
Qed.

(** C9. No entity is mutated after its creation: the objects behind the
    signal matrix [X], the datasets [X_homo] and [X_hetero], the noise
    scales [sigmas] and the grid [n_components] hold, after the main loop
    and after the construction of either figure, what they held before it,
    and each scoring operation ([compute_scores], [shrunk_cov_score],
    [lw_score], the MLE fit) returns with the store as it found it.  The
    loop only rebinds the name [X], which ends up referring to the
    heteroscedastic dataset. *)
Theorem no_entity_is_mutated (d : Data) (nc : loc) (st : State) :
  (forall Xa,
     preserves heap (compute_scores nc Xa) /\
     preserves heap (shrunk_cov_score Xa) /\
     preserves heap (lw_score Xa) /\
     preserves heap (call_with_array (PCA_fit (PCA "full" NC_mle)) Xa)) /\
  (forall g st', main_loop d nc st = Ok (g, st') ->
     (forall l, l ∈ [X d; X_homo d; X_hetero d; sigmas d; nc] ->
        heap st' !! l = heap st !! l) /\
     g_data g = d /\ g_n_components g = nc /\ g_X g = X_hetero d /\
     (forall k title fig st'', figure g k title st' = Ok (fig, st'') ->
        forall l, l ∈ [X d; X_homo d; X_hetero d; sigmas d; nc] ->
          heap st'' !! l = heap st !! l)).
Proof.
  split.
  - intros Xa. repeat split.
    + apply keeps_compute_scores.
    + apply keeps_shrunk_cov_score.
    + apply keeps_lw_score.
    + apply keeps_mle_fit.
  - intros g st' H. pose proof (keeps_main_loop d nc st g st' H) as Hh.
    rewrite main_loop_unfold in H.
    destruct (analyse nc (X_homo d) _ _ st) as [[[[da j] s] s1]|e]; [|discriminate].
    destruct (analyse nc (X_hetero d) _ _ s1) as [[[[db k] t] s2]|e]; [|discriminate].
    injection H as <- <-. cbn [g_data g_n_components g_X].
    repeat split; try (intros; rewrite Hh; reflexivity).
    intros k0 title fig st'' Hf l _.
    rewrite (preserves_figure heap _ _ _ _ _ _ Hf), Hh. reflexivity.
Qed.

(** C10. Ties are broken towards the lowest index: when several grid
    points attain the maximal score of a model family, [np.argmax] returns
    the first of them, so the selected best component count is the smallest
    grid value among them. *)
Theorem ties_select_smallest_count (st : State) (nc : loc) (grid : list Z)
    (scores : list float) :
  np_arange 0 n_features 5 = Ok grid ->
  heap st !! nc = Some (ONd (NdI grid)) ->
  length scores = length grid ->
  exists n ib,
    best_by_cv nc scores st = Ok (n, st) /\
    np_argmax scores = Ok ib /\ grid !! ib = Some n /\
    forall j sj m,
      scores !! j = Some sj ->
      (forall k x, scores !! k = Some x -> PrimFloat.leb x sj = true) ->
      grid !! j = Some m ->
      (ib <= j)%nat /\ n <= m /\
      exists sb, scores !! ib = Some sb /\ PrimFloat.eqb sb sj = true.
Proof.
  intros Hg Hnc Hlen.
  assert (Hne : scores <> []).
  { intros ->. rewrite n_components_value in Hg. injection Hg as <-. discriminate. }
  destruct (np_argmax_ok scores Hne) as [ib Hib].
  pose proof (np_argmax_spec _ _ Hib) as Hfm.
  pose proof (first_maximum_lt _ _ Hfm) as Hlt. rewrite Hlen in Hlt.
  destruct (lookup_lt_is_Some_2 grid ib Hlt) as [n Hn].
  exists n, ib. split; [|split; [assumption|split; [assumption|]]].
  - apply best_by_cv_Ok. eauto 10.
  - intros j sj m Hj Hmax Hm.
    destruct (first_maximum_ties _ _ _ _ Hfm Hj Hmax) as [Hle Hsb].
    split; [assumption|]. split; [|assumption].
    rewrite (np_arange_lookup _ _ _ _ _ _ Hg Hn), (np_arange_lookup _ _ _ _ _ _ Hg Hm).
    lia.
Qed.

(** C4, as amended. The component-count grid is the ordered sequence
    0, 5, ..., 45: its first element is 0, consecutive elements differ by
    the constant step 5, and it stops short of the feature count: every
    element is below [n_features] = 50 and the last one is 45. *)
Theorem grid_stops_short_of_feature_count (st : State) :
  exists grid,
    create_grid st =
      Ok (length (heap st), mkState (heap st ++ [ONd (NdI grid)]) (stdout st)) /\
    np_arange 0 n_features 5 = Ok grid /\
    head grid = Some 0 /\
    (forall i x y, grid !! i = Some x -> grid !! S i = Some y -> y = x + 5) /\
    (forall x, x ∈ grid -> 0 <= x < n_features) /\
    last grid = Some (n_features - 5) /\
    length grid = 10%nat.
Proof.
  exists reference_grid. split; [apply create_grid_run|].
  split; [reflexivity|]. split; [reflexivity|]. split.
  - intros i x y Hx Hy.
    rewrite (np_arange_lookup _ _ _ _ _ _ n_components_value Hx),
            (np_arange_lookup _ _ _ _ _ _ n_components_value Hy). lia.
  - split; [|split; reflexivity].
    intros x Hx. unfold reference_grid, n_features in *.
    repeat (apply elem_of_cons in Hx as [->|Hx]; [lia|]).
    apply elem_of_nil in Hx. contradiction.
Qed.

End Claims.

(** C4, as stated, fails: a grid that spans zero to the feature count
    would contain a value that reaches [n_features]; the grid of the
    notebook contains none. *)
Lemma grid_does_not_reach_feature_count :
  ~ (exists grid,
       np_arange 0 n_features 5 = Ok grid /\
       head grid = Some 0 /\
       (forall i x y, grid !! i = Some x -> grid !! S i = Some y -> y = x + 5) /\
       exists x, x ∈ grid /\ n_features <= x).
Proof.
  intros (grid & Hg & _ & _ & x & Hx & Hle).
  rewrite n_components_value in Hg. injection Hg as <-.
  unfold reference_grid, n_features in *.
  repeat (apply elem_of_cons in Hx as [->|Hx]; [lia|]).
  apply elem_of_nil in Hx. contradiction.
Qed.

(** * Further properties

    ** A pass of the main loop, step by step *)

Section Pass.
Context {L : Library}.

Lemma data_append_Ok data i t st data' st' :
  data_append data i t st = Ok (data', st') <->
  exists row, data !! i = Some row /\ data' = <[i := row ++ [t]]> data /\ st' = st.
Proof.
  unfold data_append. destruct (data !! i) as [row|]; split.
  - intros [= <- <-]. eauto.
  - intros (row' & [= <-] & -> & ->). reflexivity.
  - discriminate.
  - intros (row' & Hr & _). discriminate.
Qed.

Lemma data_append_again data i row ts t st data' st' :
  data !! i = Some row ->
  data_append (<[i := row ++ ts]> data) i t st = Ok (data', st') ->
  data' = <[i := row ++ (ts ++ [t])]> data /\ st' = st.
Proof.
  intros Hrow H. apply data_append_Ok in H as (row' & Hr & -> & ->).
  rewrite list_lookup_insert_eq in Hr by (eapply lookup_lt_Some; eassumption).
  injection Hr as <-. rewrite list_insert_insert_eq, <- app_assoc. auto.
Qed.

Lemma marker_range_Ok ps fs st y st' :
  marker_range ps fs st = Ok (y, st') <->
  exists lo hi, py_min_float ps = Ok lo /\ py_max_float fs = Ok hi /\
    y = [PrimFloat.sub lo 1; PrimFloat.add hi 1] /\ st' = st.
Proof.
  unfold marker_range, bind, lift, ret.
  destruct (py_min_float ps) as [lo|e], (py_max_float fs) as [hi|e']; split;
    try discriminate; try (intros (lo' & hi' & Hl & Hh & _); discriminate).
  - intros [= <- <-]. exists lo, hi. auto.
  - intros (lo' & hi' & [= <-] & [= <-] & -> & ->). reflexivity.
Qed.

Lemma grid_range_Ok nc st x st' :
  grid_range nc st = Ok (x, st') <->
  exists grid lo hi, heap st !! nc = Some (ONd (NdI grid)) /\
    py_min_int grid = Ok lo /\ py_max_int grid = Ok hi /\
    x = XList [lo; hi] /\ st' = st.
Proof.
  unfold grid_range. rewrite bind_Ok. split.
  - intros (grid & s & Hg & H). apply read_ndI_Ok in Hg as [Hg ->].
    unfold bind, lift, ret in H.
    destruct (py_min_int grid) as [lo|e] eqn:Hlo; [|discriminate].
    destruct (py_max_int grid) as [hi|e] eqn:Hhi; [|discriminate].
    injection H as <- <-. exists grid, lo, hi. auto 10.
  - intros (grid & lo & hi & Hg & Hlo & Hhi & -> & ->). exists grid, st.
    split; [apply read_ndI_Ok; auto|]. unfold bind, lift, ret. rewrite Hlo, Hhi. reflexivity.
Qed.

Lemma analyse_inv nc X title data i sel st data' i' sel' st' :
  analyse nc X title (data, i, sel) st = Ok ((data', i', sel'), st') ->
  exists s s1 s2 s3 s4 s5 s6 lo hi v1 v2 xs w1 w2 xl row,
    compute_scores nc X st = Ok ((pca_scores s, fa_scores s), s1) /\
    best_by_cv nc (pca_scores s) s1 = Ok (n_components_pca s, s1) /\
    best_by_cv nc (fa_scores s) s1 = Ok (n_components_fa s, s1) /\
    call_with_array (PCA_fit (PCA "full" NC_mle)) X s1 = Ok (n_components_pca_mle s, s2) /\
    s3 = mkState (heap s2) (stdout s2 ++ report title s) /\
    py_min_float (pca_scores s) = Ok lo /\ py_max_float (fa_scores s) = Ok hi /\
    shrunk_cov_score X s3 = Ok (v1, s4) /\
    shrunk_cov_score X s4 = Ok (v2, s5) /\
    grid_range nc s5 = Ok (xs, s5) /\
    lw_score X s5 = Ok (w1, s6) /\
    lw_score X s6 = Ok (w2, st') /\
    grid_range nc st' = Ok (xl, st') /\
    data !! i = Some row /\
    data' = <[i := row ++ pass_traces nc s [PrimFloat.sub lo 1; PrimFloat.add hi 1]
                             xs [v1; v2] xl [w1; w2]]> data /\
    i' = S i /\ sel' = sel ++ [s].
Proof.
  intros H. unfold analyse in H.
  apply bind_Ok in H as ([ps fs] & s1 & Hcs & H).
  apply bind_Ok in H as (n1 & t1 & H1 & H).
  assert (t1 = s1) as -> by (apply best_by_cv_Ok in H1 as (? & ? & _ & _ & _ & ->); reflexivity).
  apply bind_Ok in H as (n2 & t2 & H2 & H).
  assert (t2 = s1) as -> by (apply best_by_cv_Ok in H2 as (? & ? & _ & _ & _ & ->); reflexivity).
  apply bind_Ok in H as (n3 & s2 & H3 & H).
  do 4 (apply bind_Ok in H as ([] & ? & Hp & H); apply print_Ok in Hp as ->).
  cbn [heap stdout] in H.
  remember (mkState (heap s2) _) as s3 eqn:Es3 in H.
  apply bind_Ok in H as (d1 & ? & Ha & H).
  apply data_append_Ok in Ha as (row & Hrow & -> & ->).
  change (row ++ [?t]) with (row ++ ([] ++ [t])) in H.
  repeat match type of H with
  | bind (data_append _ _ _) _ _ = Ok _ =>
      let Ha := fresh "Ha" in
      apply bind_Ok in H as (? & ? & Ha & H);
      apply (data_append_again _ _ _ _ _ _ _ _ Hrow) in Ha as [-> ->]
  | bind (marker_range _ _) _ _ = Ok _ =>
      let Hy := fresh "Hy" in
      apply bind_Ok in H as (? & ? & Hy & H);
      apply marker_range_Ok in Hy as (? & ? & ? & ? & -> & ->)
  end.
  apply bind_Ok in H as (v1 & s4 & Hv1 & H).
  apply bind_Ok in H as (v2 & s5 & Hv2 & H).
  apply bind_Ok in H as (xs & t5 & Hxs & H).
  assert (t5 = s5) as -> by (apply grid_range_Ok in Hxs as (? & ? & ? & _ & _ & _ & _ & ->); reflexivity).
  apply bind_Ok in H as (? & ? & Ha & H).
  apply (data_append_again _ _ _ _ _ _ _ _ Hrow) in Ha as [-> ->].
  apply bind_Ok in H as (w1 & s6 & Hw1 & H).
  apply bind_Ok in H as (w2 & s7 & Hw2 & H).
  apply bind_Ok in H as (xl & t7 & Hxl & H).
  assert (t7 = s7) as -> by (apply grid_range_Ok in Hxl as (? & ? & ? & _ & _ & _ & _ & ->); reflexivity).
  apply bind_Ok in H as (? & ? & Ha & H).
  apply (data_append_again _ _ _ _ _ _ _ _ Hrow) in Ha as [-> ->].
  injection H as <- <- <- <-.
  repeat match goal with
  | A : py_min_float ps = Ok ?a, B : py_min_float ps = Ok ?b |- _ =>
      assert (b = a) by congruence; subst b; clear B
  | A : py_max_float fs = Ok ?a, B : py_max_float fs = Ok ?b |- _ =>
      assert (b = a) by congruence; subst b; clear B
  end.
  match goal with
  | A : py_min_float ps = Ok ?lo, B : py_max_float fs = Ok ?hi |- _ =>
      exists (mkSelection ps fs n1 n2 n3), s1, s2, s3, s4, s5, s6, lo, hi,
             v1, v2, xs, w1, w2, xl, row
  end.
  cbn [pca_scores fa_scores n_components_pca n_components_fa n_components_pca_mle].
  repeat split; try assumption.
  rewrite Es3. unfold report. cbn [n_components_pca n_components_fa n_components_pca_mle].
  rewrite <- !app_assoc. reflexivity.
Qed.

Lemma analyse_appends nc X title data i sel st data' i' sel' st' :
  analyse nc X title (data, i, sel) st = Ok ((data', i', sel'), st') ->
  exists s ts row,
    sel' = sel ++ [s] /\ i' = S i /\
    data !! i = Some row /\ data' = <[i := row ++ ts]> data /\
    map sc_name ts = trace_names s /\
    map sc_color ts =
      ["blue"; "red"; "green"; "blue"; "red"; "black"; "violet"; "orange"]%string /\
    map sc_dash ts =
      [None; None; Some "dash"; Some "dash"; Some "dash"; Some "dash";
       Some "dash"; Some "dashdot"]%string /\
    stdout st' = stdout st ++ report title s.
Proof.
  intros H. apply analyse_inv in H
    as (s & s1 & s2 & s3 & s4 & s5 & s6 & lo & hi & v1 & v2 & xs & w1 & w2 & xl & row
        & Hcs & _ & _ & Hmle & Es3 & _ & _ & Hv1 & Hv2 & _ & Hw1 & Hw2 & _
        & Hrow & -> & -> & ->).
  exists s, (pass_traces nc s [PrimFloat.sub lo 1; PrimFloat.add hi 1]
               xs [v1; v2] xl [w1; w2]), row.
  repeat split; try assumption; try reflexivity.
  rewrite (lw_score_silent _ _ _ _ Hw2), (lw_score_silent _ _ _ _ Hw1),
          (shrunk_cov_score_silent _ _ _ _ Hv2), (shrunk_cov_score_silent _ _ _ _ Hv1), Es3.
  cbn [stdout].
  rewrite (call_with_array_silent _ _ _ _ _ Hmle), (compute_scores_silent _ _ _ _ _ Hcs).
  reflexivity.
Qed.

Lemma main_loop_rows d nc st g st' :
  main_loop d nc st = Ok (g, st') ->
  exists s1 s2 r0 r1,
    g_selected g = [s1; s2] /\ g_traces g = [r0; r1] /\ g_i g = 2%nat /\
    map sc_name r0 = trace_names s1 /\ map sc_name r1 = trace_names s2 /\
    stdout st' = stdout st ++ report "Homoscedastic Noise" s1
                           ++ report "Heteroscedastic Noise" s2.
Proof.
  intros H. rewrite main_loop_unfold in H.
  destruct (analyse nc (X_homo d) _ _ st) as [[[[da j] s] t1]|e] eqn:E1; [|discriminate].
  destruct (analyse nc (X_hetero d) _ _ t1) as [[[[db k] t] t2]|e] eqn:E2; [|discriminate].
  injection H as <- <-.
  apply analyse_appends in E1 as (s1 & r0 & row0 & -> & -> & Hr0 & -> & Hn0 & _ & _ & Ho1).
  injection Hr0 as <-.
  apply analyse_appends in E2 as (s2 & r1 & row1 & -> & -> & Hr1 & -> & Hn1 & _ & _ & Ho2).
  injection Hr1 as <-.
  exists s1, s2, r0, r1. cbn [g_selected g_traces g_i]. repeat split; try assumption.
  rewrite Ho2, Ho1, <- app_assoc. reflexivity.
Qed.

End Pass.

Lemma py_min_int_spec l m :
  py_min_int l = Ok m -> m ∈ l /\ forall y, y ∈ l -> m <= y.
Proof.
  unfold py_min_int, py_fold. destruct l as [|x l]; [discriminate|]. intros [= <-].
  revert x. induction l as [|z l IH]; intros x; simpl.
  - split; [apply list_elem_of_singleton; reflexivity|].
    intros y Hy. apply list_elem_of_singleton in Hy as ->. lia.
  - destruct (IH (if z <? x then z else x)) as [Hin Hle]. split.
    + apply elem_of_cons in Hin as [Hin|Hin].
      * rewrite Hin. destruct (z <? x); [right; left | left].
      * right; right; assumption.
    + intros y Hy.
      assert (Hm : fold_left (fun cur item => if item <? cur then item else cur) l
                     (if z <? x then z else x) <= (if z <? x then z else x))
        by (apply Hle; left).
      apply elem_of_cons in Hy as [->|Hy].
      * destruct (Z.ltb_spec z x); lia.
      * apply elem_of_cons in Hy as [->|Hy].
        -- destruct (Z.ltb_spec z x); lia.
        -- apply Hle. right; assumption.
Qed.

Lemma py_max_int_spec l m :
  py_max_int l = Ok m -> m ∈ l /\ forall y, y ∈ l -> y <= m.
Proof.
  unfold py_max_int, py_fold. destruct l as [|x l]; [discriminate|]. intros [= <-].
  revert x. induction l as [|z l IH]; intros x; simpl.
  - split; [apply list_elem_of_singleton; reflexivity|].
    intros y Hy. apply list_elem_of_singleton in Hy as ->. lia.
  - destruct (IH (if z >? x then z else x)) as [Hin Hle]. split.
    + apply elem_of_cons in Hin as [Hin|Hin].
      * rewrite Hin. destruct (z >? x); [right; left | left].
      * right; right; assumption.
    + intros y Hy.
      assert (Hm : (if z >? x then z else x) <=
                   fold_left (fun cur item => if item >? cur then item else cur) l
                     (if z >? x then z else x))
        by (apply Hle; left).
      apply elem_of_cons in Hy as [->|Hy].
      * destruct (Z.gtb_spec z x); lia.
      * apply elem_of_cons in Hy as [->|Hy].
        -- destruct (Z.gtb_spec z x); lia.
        -- apply Hle. right; assumption.
Qed.

Lemma py_fold_in {A} (better : A -> A -> bool) (l : list A) (m : A) :
  py_fold better l = Ok m -> m ∈ l.
Proof.
  unfold py_fold. destruct l as [|x l]; [discriminate|]. intros [= <-].
  revert x. induction l as [|z l IH]; intros x; simpl; [left|].
  specialize (IH (if better z x then z else x)).
  apply elem_of_cons in IH as [Heq|Hin].
  - rewrite Heq. destruct (better z x); [right; left | left].
  - right; right; assumption.
Qed.

Section PassRO.
Context {L : Library} {RO : ReadOnly L}.

Lemma shrunk_cov_score_Ok X st a v st' :
  heap st !! X = Some (ONd a) ->
  shrunk_cov_score X st = Ok (v, st') -> st' = st /\ shrunk_scored a v.
Proof.
  intros HX H.
  split; [apply (preserves_both _ _ _ _ (keeps_shrunk_cov_score X)
                   (shrunk_cov_score_silent X) H)|].
  unfold shrunk_cov_score in H.
  apply bind_Ok in H as (best & s1 & Hg & H).
  apply call_with_array_Ok in Hg as (a0 & a' & Ha0 & Hfit & ->).
  rewrite HX in Ha0. injection Ha0 as <-.
  pose proof (GridSearchCV_fit_readonly _ _ _ _ _ _ Hfit) as ->.
  rewrite list_insert_id, state_eta in H by assumption.
  apply bind_Ok in H as (folds & s2 & Hc & H).
  rewrite (call_cross_val_score_run best X st a HX) in Hc.
  destruct (cross_val_score best a) as [[f a']|e] eqn:Ec; [|discriminate].
  pose proof (cross_val_score_readonly _ _ _ _ Ec) as ->.
  injection Hc as <- <-. injection H as <- _.
  exists best, f. auto.
Qed.

Lemma lw_score_Ok X st a w st' :
  heap st !! X = Some (ONd a) ->
  lw_score X st = Ok (w, st') -> st' = st /\ lw_scored a w.
Proof.
  intros HX H. unfold lw_score in H.
  apply bind_Ok in H as (folds & s2 & Hc & H).
  rewrite (call_cross_val_score_run _ X st a HX) in Hc.
  destruct (cross_val_score LedoitWolf a) as [[f a']|e] eqn:Ec; [|discriminate].
  pose proof (cross_val_score_readonly _ _ _ _ Ec) as ->.
  injection Hc as <- <-. injection H as <- <-.
  split; [reflexivity|]. exists f. auto.
Qed.

Lemma shrunk_scored_fun a v1 v2 : shrunk_scored a v1 -> shrunk_scored a v2 -> v1 = v2.
Proof.
  intros (b1 & f1 & Hb1 & Hf1 & ->) (b2 & f2 & Hb2 & Hf2 & ->).
  rewrite Hb1 in Hb2. injection Hb2 as <-. rewrite Hf1 in Hf2. injection Hf2 as <-.
  reflexivity.
Qed.

Lemma lw_scored_fun a w1 w2 : lw_scored a w1 -> lw_scored a w2 -> w1 = w2.
Proof.
  intros (f1 & Hf1 & ->) (f2 & Hf2 & ->). rewrite Hf1 in Hf2. injection Hf2 as <-.
  reflexivity.
Qed.

Lemma analyse_traces nc X title data i sel st data' i' sel' st' grid a :
  heap st !! nc = Some (ONd (NdI grid)) ->
  heap st !! X = Some (ONd a) ->
  analyse nc X title (data, i, sel) st = Ok ((data', i', sel'), st') ->
  exists s lo hi v w gmin gmax row,
    sel' = sel ++ [s] /\
    length (pca_scores s) = length grid /\ length (fa_scores s) = length grid /\
    py_min_float (pca_scores s) = Ok lo /\ py_max_float (fa_scores s) = Ok hi /\
    py_min_int grid = Ok gmin /\ py_max_int grid = Ok gmax /\
    shrunk_scored a v /\ lw_scored a w /\
    data !! i = Some row /\
    data' = <[i := row ++ pass_traces nc s [PrimFloat.sub lo 1; PrimFloat.add hi 1]
                             (XList [gmin; gmax]) [v; v]
                             (XList [gmin; gmax]) [w; w]]> data /\
    heap st' = heap st.
Proof.
  intros Hnc HX H. pose proof (keeps_analyse _ _ _ _ _ _ _ H) as Hheap.
  apply analyse_inv in H
    as (s & s1 & s2 & s3 & s4 & s5 & s6 & lo & hi & v1 & v2 & xs & w1 & w2 & xl & row
        & Hcs & _ & _ & Hmle & Es3 & Hlo & Hhi & Hv1 & Hv2 & Hxs & Hw1 & Hw2 & Hxl
        & Hrow & -> & -> & ->).
  pose proof (compute_scores_run nc X st grid a Hnc HX) as Hrun.
  rewrite Hcs in Hrun. destruct Hrun as (-> & Hp & Hf).
  apply (preserves_both _ _ _ _ (keeps_mle_fit X)
           (call_with_array_silent _ X)) in Hmle as ->.
  assert (H3 : heap s3 = heap st) by (rewrite Es3; reflexivity).
  assert (HX3 : heap s3 !! X = Some (ONd a)) by (rewrite H3; assumption).
  assert (Hnc3 : heap s3 !! nc = Some (ONd (NdI grid))) by (rewrite H3; assumption).
  apply (shrunk_cov_score_Ok _ _ a) in Hv1 as [-> Sv1]; [|assumption].
  apply (shrunk_cov_score_Ok _ _ a) in Hv2 as [-> Sv2]; [|assumption].
  apply (lw_score_Ok _ _ a) in Hw1 as [-> Sw1]; [|assumption].
  apply (lw_score_Ok _ _ a) in Hw2 as [-> Sw2]; [|assumption].
  rewrite (shrunk_scored_fun a v2 v1 Sv2 Sv1).
  rewrite (lw_scored_fun a w2 w1 Sw2 Sw1).
  apply grid_range_Ok in Hxs as (g1 & gmin & gmax & Hg1 & Hmin & Hmax & -> & _).
  apply grid_range_Ok in Hxl as (g2 & gmin' & gmax' & Hg2 & Hmin' & Hmax' & -> & _).
  rewrite Hnc3 in Hg1, Hg2. injection Hg1 as <-. injection Hg2 as <-.
  rewrite Hmin in Hmin'. injection Hmin' as <-.
  rewrite Hmax in Hmax'. injection Hmax' as <-.
  exists s, lo, hi, v1, w1, gmin, gmax, row.
  repeat split; try assumption.
  - symmetry. eapply Forall2_length. eassumption.
  - symmetry. eapply Forall2_length. eassumption.
Qed.

End PassRO.

(** ** Selection and failure *)



Section Sweep.
Context {L : Library}.

Lemma call_cross_val_score_same est X st a s :
  heap st !! X = Some (ONd a) -> cross_val_score est a = Ok (s, a) ->
  call_cross_val_score est X st = Ok (s, st).
Proof.
  intros HX Hc. unfold call_cross_val_score, call_with_array, bind, read_nd, read, bind.
  rewrite HX. simpl. unfold lift. rewrite Hc. unfold write, ret.
  rewrite list_insert_id by assumption. rewrite state_eta. reflexivity.
Qed.

Lemma call_cross_val_score_raise est X st a e :
  heap st !! X = Some (ONd a) -> cross_val_score est a = Raise e ->
  call_cross_val_score est X st = Raise e.
Proof.
  intros HX Hc. unfold call_cross_val_score, call_with_array, bind, read_nd, read, bind.
  rewrite HX. simpl. unfold lift. rewrite Hc. reflexivity.
Qed.

Lemma sweep_stops X a n e post : forall pre c1 c2 ps0 fs0 st,
  heap st !! X = Some (ONd a) ->
  (forall m, m ∈ pre -> exists sp sf,
     cross_val_score (pca_with m) a = Ok (sp, a) /\
     cross_val_score (fa_with m) a = Ok (sf, a)) ->
  (cross_val_score (pca_with n) a = Raise e \/
   exists sp, cross_val_score (pca_with n) a = Ok (sp, a) /\
              cross_val_score (fa_with n) a = Raise e) ->
  for_each (pre ++ n :: post) (score_step X)
    (PCA "full" c1, FactorAnalysis c2, ps0, fs0) st = Raise e.
Proof.
  unfold pca_with, fa_with.
  induction pre as [|m pre IH]; intros c1 c2 ps0 fs0 st HX Hpre Hn; simpl.
  - unfold bind at 1. unfold score_step. cbn [set_n_components]. unfold bind at 1.
    destruct Hn as [Hp | (sp & Hp & Hf)].
    + rewrite (call_cross_val_score_raise _ X st a e HX Hp). reflexivity.
    + rewrite (call_cross_val_score_same _ X st a sp HX Hp).
      unfold bind at 1. rewrite (call_cross_val_score_raise _ X st a e HX Hf). reflexivity.
  - destruct (Hpre m) as (sp & sf & Hp & Hf); [left|].
    unfold bind at 1. unfold score_step at 1. cbn [set_n_components]. unfold bind at 1.
    rewrite (call_cross_val_score_same _ X st a sp HX Hp).
    unfold bind at 1. rewrite (call_cross_val_score_same _ X st a sf HX Hf).
    unfold ret at 1. apply IH; [assumption | | assumption].
    intros k Hk. apply Hpre. right. assumption.
Qed.

End Sweep.

Section Further1.
Context {L : Library}.

(** X1. A NaN among the scores wins the selection: [np.argmax] returns the
    index of the first NaN whatever the other scores are, so the "best"
    component count reported is the grid value of the first grid point
    whose mean score is NaN. *)
Theorem nan_score_is_selected (scores : list float) (j : nat) (x : float) :
  scores !! j = Some x -> isnan x = true ->
  (forall k y, (k < j)%nat -> scores !! k = Some y -> isnan y = false) ->
  np_argmax scores = Ok j /\
  forall st nc grid n,
    heap st !! nc = Some (ONd (NdI grid)) -> grid !! j = Some n ->
    best_by_cv nc scores st = Ok (n, st).
Proof.
  intros Hj Hx Hbefore.
  assert (Hne : scores <> []) by (intros ->; discriminate).
  destruct (np_argmax_ok scores Hne) as [r Hr].
  assert (r = j) as ->.
  { destruct (np_argmax_spec _ _ Hr) as (s & Hs & Hpre & Hall).
    destruct (lt_eq_lt_dec r j) as [[Hlt|Heq]|Hgt]; [exfalso|assumption|exfalso].
    - pose proof (Hbefore r s Hlt Hs) as Hnan.
      pose proof (Hall Hnan j x Hj) as Hle.
      apply leb_notnan in Hle as [Hx' _]. congruence.
    - destruct (Hpre j x Hgt Hj) as [Hx' _]. congruence. }
  split; [assumption|].
  intros st nc grid n Hnc Hn. apply best_by_cv_Ok. exists j, grid. auto.
Qed.

(** X2. The outcomes of [n_components[np.argmax(scores)]]: it returns a
    value of the grid, at the index of the arg-max, and leaves the state
    alone; it raises [ValueError] exactly on an empty score sequence and
    [IndexError] only when there are more scores than grid points. *)
Theorem best_by_cv_outcomes (st : State) (nc : loc) (grid : list Z) (scores : list float) :
  heap st !! nc = Some (ONd (NdI grid)) ->
  match best_by_cv nc scores st with
  | Ok (n, st') =>
      st' = st /\ scores <> [] /\ n ∈ grid /\
      exists i, np_argmax scores = Ok i /\ grid !! i = Some n
  | Raise e =>
      (scores = [] /\ e = ValueError) \/
      (scores <> [] /\ (length grid < length scores)%nat /\ e = IndexError)
  end.
Proof.
  intros Hnc. unfold best_by_cv, bind, lift.
  destruct scores as [|x l].
  - left. auto.
  - destruct (np_argmax (x :: l)) as [i|e] eqn:Hi; [|discriminate].
    pose proof (first_maximum_lt _ _ (np_argmax_spec _ _ Hi)) as Hlt.
    unfold read_ndI, read_nd, read, bind. rewrite Hnc. cbn [ret].
    unfold getitem. destruct (grid !! i) as [n|] eqn:Hn.
    + split; [reflexivity|]. split; [discriminate|].
      split; [eapply list_elem_of_lookup_2; eassumption|]. eauto.
    + right. split; [discriminate|]. apply lookup_ge_None in Hn. split; [lia|reflexivity].
Qed.

(** X3. With an empty grid the sweep makes no library call and returns two
    empty score sequences, and the pass then stops with the [ValueError]
    of [np.argmax] on an empty sequence. *)
Theorem empty_grid_fails_selection (st : State) (nc X : loc) (title : string)
    (acc : list (list Scatter) * nat * list Selection) :
  heap st !! nc = Some (ONd (NdI [])) ->
  compute_scores nc X st = Ok (([], []), st) /\
  analyse nc X title acc st = Raise ValueError.
Proof.
  intros Hnc.
  assert (Hcs : compute_scores nc X st = Ok (([], []), st)).
  { unfold compute_scores, bind, read_ndI, read_nd, read, bind. rewrite Hnc. reflexivity. }
  split; [assumption|].
  destruct acc as [[data i] sel]. unfold analyse. unfold bind at 1. rewrite Hcs.
  reflexivity.
Qed.

(** X4. The sweep stops at the first library call that fails: when every
    grid point before [n] is scored for both models and the PCA call at
    [n] raises, or the PCA call returns and the FactorAnalysis call raises,
    then [compute_scores] raises that exception, and so does the pass of
    the main loop. *)
Theorem first_failure_stops_sweep (st : State) (nc X : loc) (a : ndarray)
    (pre : list Z) (n : Z) (post : list Z) (e : Exn) :
  heap st !! nc = Some (ONd (NdI (pre ++ n :: post))) ->
  heap st !! X = Some (ONd a) ->
  (forall m, m ∈ pre -> exists sp sf,
     cross_val_score (pca_with m) a = Ok (sp, a) /\
     cross_val_score (fa_with m) a = Ok (sf, a)) ->
  (cross_val_score (pca_with n) a = Raise e \/
   exists sp, cross_val_score (pca_with n) a = Ok (sp, a) /\
              cross_val_score (fa_with n) a = Raise e) ->
  compute_scores nc X st = Raise e /\
  forall title acc, analyse nc X title acc st = Raise e.
Proof.
  intros Hnc HX Hpre Hn.
  assert (Hcs : compute_scores nc X st = Raise e).
  { unfold compute_scores. unfold bind at 1.
    unfold read_ndI, read_nd, read, bind at 1 2. rewrite Hnc. cbn [ret].
    unfold bind. rewrite (sweep_stops X a n e post pre _ _ _ _ st HX Hpre Hn).
    reflexivity. }
  split; [assumption|].
  intros title [[data i] sel]. unfold analyse. unfold bind at 1. rewrite Hcs. reflexivity.
Qed.

(** X5. The lines a pass prints identify what it selected: two passes that
    print the same four lines had the same title and the same three
    component counts. *)
Theorem report_identifies_counts (t1 t2 : string) (s1 s2 : Selection) :
  report t1 s1 = report t2 s2 ->
  t1 = t2 /\
  n_components_pca s1 = n_components_pca s2 /\
  n_components_fa s1 = n_components_fa s2 /\
  n_components_pca_mle s1 = n_components_pca_mle s2.
Proof.
  unfold report. intros [= Ht H1 H2 H3].
  apply format_d_inj in H1, H2, H3. auto.
Qed.

End Further1.

(** ** Traces, figures and output *)

Section Further2.
Context {L : Library}.

(** X6. A pass of the main loop that returns has appended exactly eight
    traces to [data[i]], in the order PCA scores, FA scores, truth, PCA CV,
    FactorAnalysis CV, PCA MLE, Shrunk Covariance, LedoitWolf, with these
    names, colours and dashes; the other entries of [data] are as they
    were, [i] has grown by one and the pass has printed its four lines. *)
Theorem pass_appends_eight_traces (nc X : loc) (title : string)
    (data data' : list (list Scatter)) (i i' : nat) (sel sel' : list Selection)
    (st st' : State) :
  analyse nc X title (data, i, sel) st = Ok ((data', i', sel'), st') ->
  exists s ts row,
    sel' = sel ++ [s] /\ i' = S i /\
    data !! i = Some row /\ data' !! i = Some (row ++ ts) /\
    length data' = length data /\
    (forall j, j <> i -> data' !! j = data !! j) /\
    length ts = 8%nat /\
    map sc_name ts = trace_names s /\
    map sc_color ts =
      ["blue"; "red"; "green"; "blue"; "red"; "black"; "violet"; "orange"]%string /\
    map sc_dash ts =
      [None; None; Some "dash"; Some "dash"; Some "dash"; Some "dash";
       Some "dash"; Some "dashdot"]%string /\
    stdout st' = stdout st ++ report title s.
Proof.
  intros H.
  apply analyse_appends in H as (s & ts & row & -> & -> & Hrow & -> & Hn & Hc & Hd & Ho).
  exists s, ts, row. repeat split; try assumption.
  - apply list_lookup_insert_eq. eapply lookup_lt_Some; eassumption.
  - apply length_insert.
  - intros j Hj. apply list_lookup_insert_ne. congruence.
  - rewrite <- (length_map sc_name), Hn. reflexivity.
Qed.

(** X7. The main loop, when it returns, has run two passes: [i] is 2,
    [data] holds two rows, the traces of the homoscedastic dataset first,
    each named after its own selection, and the output has grown by the
    report of the first pass followed by the report of the second.  There
    is no third row: building a figure from [data[k]] for [k >= 2] raises
    [IndexError]. *)
Theorem main_loop_fills_both_rows (d : Data) (nc : loc) (st st' : State) (g : Globals) :
  main_loop d nc st = Ok (g, st') ->
  exists s1 s2 r0 r1,
    g_selected g = [s1; s2] /\ g_traces g = [r0; r1] /\ g_i g = 2%nat /\
    map sc_name r0 = trace_names s1 /\ map sc_name r1 = trace_names s2 /\
    stdout st' = stdout st ++ report "Homoscedastic Noise" s1
                           ++ report "Heteroscedastic Noise" s2 /\
    forall k title s, (2 <= k)%nat -> figure g k title s = Raise IndexError.
Proof.
  intros H.
  destruct (main_loop_rows _ _ _ _ _ H) as (s1 & s2 & r0 & r1 & Hs & Ht & Hi & H0 & H1 & Ho).
  exists s1, s2, r0, r1. repeat split; try assumption.
  intros k title s Hk. unfold figure, bind, lift, getitem. rewrite Ht.
  destruct k as [|[|k]]; [lia | lia | reflexivity].
Qed.

(** X8. A run of the notebook that completes ends with two figures,
    titled "Homoscedastic Noise" and "Heteroscedastic Noise", with the
    axes "nb of components" and "CV scores"; the first shows row 0 of
    [data] and the second row 1, each with the eight traces of its own
    dataset, and the run has printed the two reports and nothing else. *)
Theorem notebook_figures (st st' : State) (g : Globals) (f1 f2 : Figure) :
  notebook st = Ok ((g, f1, f2), st') ->
  exists s1 s2,
    g_selected g = [s1; s2] /\
    g_traces g = [fig_data f1; fig_data f2] /\
    map sc_name (fig_data f1) = trace_names s1 /\
    map sc_name (fig_data f2) = trace_names s2 /\
    (fig_title f1, fig_xaxis f1, fig_yaxis f1)
      = ("Homoscedastic Noise", "nb of components", "CV scores")%string /\
    (fig_title f2, fig_xaxis f2, fig_yaxis f2)
      = ("Heteroscedastic Noise", "nb of components", "CV scores")%string /\
    stdout st' = stdout st ++ report "Homoscedastic Noise" s1
                           ++ report "Heteroscedastic Noise" s2.
Proof.
  intros H. rewrite notebook_unfold in H.
  destruct create_data_determined as [o [Ho _]]. rewrite Ho in H.
  destruct o as [v|e]; [|discriminate].
  rewrite create_grid_run in H. cbn [heap stdout] in H.
  destruct (main_loop _ _ _) as [[g0 s3]|e] eqn:Em; [|discriminate].
  destruct (main_loop_rows _ _ _ _ _ Em) as (s1 & s2 & r0 & r1 & Hs & Ht & _ & H0 & H1 & Hout).
  rewrite Ht in H. injection H as <- <- <- <-.
  exists s1, s2. cbn [fig_data fig_title fig_xaxis fig_yaxis].
  repeat split; assumption.
Qed.

Context {RO : ReadOnly L}.


(** X10. Every trace a pass appends has as many [x] as [y] values: the two
    score curves have one score per grid point, and the four markers and
    the two baselines have two points each. *)
Theorem traces_have_matching_lengths (nc X : loc) (title : string)
    (data data' : list (list Scatter)) (i i' : nat) (sel sel' : list Selection)
    (st st' : State) (grid : list Z) (a : ndarray) :
  heap st !! nc = Some (ONd (NdI grid)) ->
  heap st !! X = Some (ONd a) ->
  analyse nc X title (data, i, sel) st = Ok ((data', i', sel'), st') ->
  exists row ts,
    data !! i = Some row /\ data' !! i = Some (row ++ ts) /\ length ts = 8%nat /\
    Forall (fun t => x_length (heap st') (sc_x t) = Some (length (sc_y t))) ts.
Proof.
  intros Hnc HX H.
  destruct (analyse_traces _ _ _ _ _ _ _ _ _ _ _ _ _ Hnc HX H)
    as (s & lo & hi & v & w & gmin & gmax & row & _ & Hlp & Hlf & _ & _ & _ & _ & _ & _
        & Hrow & -> & Hheap).
  eexists row, _. split; [assumption|].
  split; [apply list_lookup_insert_eq; eapply lookup_lt_Some; eassumption|].
  split; [reflexivity|].
  unfold pass_traces. repeat constructor; cbn [sc_x sc_y x_length length];
    rewrite ?Hheap, ?Hnc; congruence.
Qed.

(** X11. The shape of the markers and baselines of a pass: the four
    vertical markers stand at the true rank and at the three selected
    counts and share one extent, from [min(pca_scores) - 1] to
    [max(fa_scores) + 1]; the two baselines are horizontal, both ends at
    the one score of the estimator, and run from the smallest to the
    largest grid value. *)
Theorem markers_and_baselines (nc X : loc) (title : string)
    (data data' : list (list Scatter)) (i i' : nat) (sel sel' : list Selection)
    (st st' : State) (grid : list Z) (a : ndarray) :
  heap st !! nc = Some (ONd (NdI grid)) ->
  heap st !! X = Some (ONd a) ->
  analyse nc X title (data, i, sel) st = Ok ((data', i', sel'), st') ->
  exists s lo hi v w gmin gmax row,
    sel' = sel ++ [s] /\
    py_min_float (pca_scores s) = Ok lo /\ py_max_float (fa_scores s) = Ok hi /\
    lo ∈ pca_scores s /\ hi ∈ fa_scores s /\
    gmin ∈ grid /\ gmax ∈ grid /\ (forall x, x ∈ grid -> gmin <= x <= gmax) /\
    shrunk_scored a v /\ lw_scored a w /\
    data !! i = Some row /\
    data' !! i =
      Some (row ++ pass_traces nc s [PrimFloat.sub lo 1; PrimFloat.add hi 1]
                     (XList [gmin; gmax]) [v; v] (XList [gmin; gmax]) [w; w]).
Proof.
  intros Hnc HX H.
  destruct (analyse_traces _ _ _ _ _ _ _ _ _ _ _ _ _ Hnc HX H)
    as (s & lo & hi & v & w & gmin & gmax & row & Hsel & _ & _ & Hlo & Hhi & Hmin & Hmax
        & Hv & Hw & Hrow & -> & _).
  apply py_min_int_spec in Hmin as [Hmin Hle]. apply py_max_int_spec in Hmax as [Hmax Hge].
  exists s, lo, hi, v, w, gmin, gmax, row. repeat split; try assumption.
  - apply (py_fold_in _ _ _ Hlo).
  - apply (py_fold_in _ _ _ Hhi).
  - apply Hle. assumption.
  - apply Hge. assumption.
  - apply list_lookup_insert_eq. eapply lookup_lt_Some; eassumption.
Qed.

(** X12. On the notebook's grid the two cross-validated counts of a pass
    are grid points, multiples of five between 0 and 45; a count off the
    grid can only come from the MLE fit. *)
Theorem cv_counts_lie_on_grid (nc X : loc) (title : string)
    (data data' : list (list Scatter)) (i i' : nat) (sel sel' : list Selection)
    (st st' : State) (a : ndarray) :
  heap st !! nc = Some (ONd (NdI reference_grid)) ->
  heap st !! X = Some (ONd a) ->
  analyse nc X title (data, i, sel) st = Ok ((data', i', sel'), st') ->
  exists s,
    sel' = sel ++ [s] /\
    (0 <= n_components_pca s <= 45 /\ n_components_pca s mod 5 = 0) /\
    (0 <= n_components_fa s <= 45 /\ n_components_fa s mod 5 = 0).
Proof.
  intros Hnc HX H.
  destruct (analyse_Ok _ _ _ _ _ _ _ _ _ _ _ _ _ Hnc HX H)
    as (s & ip & ifa & Hsel & _ & _ & _ & _ & Hp & _ & Hf & _).
  exists s. split; [assumption|].
  apply list_elem_of_lookup_2 in Hp, Hf. unfold reference_grid in Hp, Hf.
  split.
  - repeat (apply elem_of_cons in Hp as [->|Hp]; [split; [lia|reflexivity]|]).
    apply elem_of_nil in Hp. contradiction.
  - repeat (apply elem_of_cons in Hf as [->|Hf]; [split; [lia|reflexivity]|]).
    apply elem_of_nil in Hf. contradiction.
Qed.

(** X13. The two passes of the main loop do not depend on each other:
    what the loop selects for the heteroscedastic dataset is what a pass on
    that dataset alone, started where the loop started, selects. *)
Theorem passes_are_independent (d : Data) (nc : loc) (st st' : State) (g : Globals)
    (grid : list Z) (a : ndarray) :
  nc <> X_hetero d ->
  heap st !! nc = Some (ONd (NdI grid)) ->
  heap st !! X_hetero d = Some (ONd a) ->
  main_loop d nc st = Ok (g, st') ->
  exists s1 s2 da sx,
    g_selected g = [s1; s2] /\
    analyse nc (X_hetero d) "Heteroscedastic Noise" ([[]; []], 0%nat, []) st
      = Ok ((da, 1%nat, [s2]), sx).
Proof.
  intros Hne Hnc HX H. rewrite main_loop_unfold in H.
  destruct (analyse nc (X_homo d) _ _ st) as [[[[da j] s] t1]|e] eqn:E1; [|discriminate].
  destruct (analyse nc (X_hetero d) _ _ t1) as [[[[db k] t] t2]|e] eqn:E2; [|discriminate].
  injection H as <- <-. cbn [g_selected].
  pose proof (keeps_analyse _ _ _ _ _ _ _ E1) as Hheap.
  apply analyse_appends in E1 as (s1 & r0 & row0 & -> & -> & Hr0 & -> & _).
  assert (F1 : footprint grid a nc (X_hetero d) (heap t1))
    by (rewrite Hheap; repeat split; assumption).
  assert (F2 : footprint grid a nc (X_hetero d) (heap st))
    by (repeat split; assumption).
  pose proof (analyse_together grid a nc (X_hetero d) nc (X_hetero d) t1 st
                "Heteroscedastic Noise" (<[0%nat := row0 ++ r0]> [[]; []]) 1%nat ([] ++ [s1])
                [[]; []] 0%nat [] F1 F2) as T.
  rewrite E2 in T. unfold together in T.
  destruct (analyse nc (X_hetero d) "Heteroscedastic Noise" ([[]; []], 0%nat, []) st)
    as [[[[d2 j2] sel2] sx]|e].
  - destruct T as [(s2 & -> & -> & _ & -> & _) _];
      [rewrite length_insert; simpl; lia | simpl; lia |].
    exists s1, s2, d2, sx. split; reflexivity.
  - exfalso. apply T; [rewrite length_insert; simpl; lia | simpl; lia].
Qed.

End Further2.

(** ** The data cell *)


Lemma transpose_aux_map n a :
  transpose_aux n a = map (fun j => omap (fun r : list float => r !! j) a) (seq 0 n).
Proof.
  induction n as [|n IH]; [reflexivity|].
  cbn [transpose_aux]. rewrite IH, seq_S, map_app. reflexivity.
Qed.

Lemma omap_lookup_column (a : matrix) (j : nat) :
  Forall (fun r => (j < length r)%nat) a ->
  length (omap (fun r : list float => r !! j) a) = length a /\
  forall i, omap (fun r : list float => r !! j) a !! i = entry a i j.
Proof.
  induction 1 as [|r a Hr Ha [IHl IHi]]; [split; [reflexivity|intros i; reflexivity]|].
  destruct (lookup_lt_is_Some_2 r j Hr) as [x Hx].
  cbn [omap list_omap]. rewrite Hx. split; [simpl; congruence|].
  intros [|i]; unfold entry; simpl; [congruence|]. apply IHi.
Qed.

Lemma broadcast_length {A B C} (f : A -> B -> result C) u v w :
  length u = length v -> broadcast f u v = Ok w -> length w = length u.
Proof.
  intros Hlen Hb.
  assert (Hz : all_ok (zip_with f u v) = Ok w).
  { unfold broadcast in Hb. apply Nat.eqb_eq in Hlen.
    destruct u as [|a0 [|a1 u']], v as [|b0 [|b1 v']]; try discriminate; try exact Hb.
    rewrite Hlen in Hb. exact Hb. }
  apply all_ok_Ok in Hz. apply (f_equal length) in Hz.
  rewrite length_zip_with, length_map in Hz. lia.
Qed.

Lemma elementwise2_entry op a b w (i j : nat) ra rb x y :
  length a = length b -> elementwise2 op a b = Ok w ->
  a !! i = Some ra -> b !! i = Some rb -> length ra = length rb ->
  ra !! j = Some x -> rb !! j = Some y ->
  entry w i j = Some (op x y).
Proof.
  intros Hlen Hw Ha Hb Hl Hx Hy.
  destruct (broadcast_lookup _ _ _ _ _ _ _ Hlen Hw Ha Hb) as (rw & Hrw & Hop).
  unfold entry. rewrite Hrw. apply (elementwise1_lookup _ _ _ _ _ _ _ Hl Hop Hx Hy).
Qed.

Lemma elementwise21_row op a v p (i : nat) r :
  elementwise21 op a v = Ok p -> a !! i = Some r -> length r = length v ->
  length p = length a /\
  exists pr, p !! i = Some pr /\ length pr = length r /\
    forall (j : nat) x y, r !! j = Some x -> v !! j = Some y -> pr !! j = Some (op x y).
Proof.
  intros Hp Hr Hl.
  assert (Hz : all_ok (map (fun r => elementwise1 op r v) a) = Ok p).
  { unfold elementwise21, broadcast in Hp. destruct a as [|a0 [|a1 a']]; exact Hp. }
  apply all_ok_Ok in Hz. split.
  { apply (f_equal length) in Hz. rewrite !length_map in Hz. congruence. }
  destruct (elementwise21_lookup _ _ _ _ _ _ Hp Hr) as (pr & Hpr & Hrow).
  exists pr. split; [assumption|]. split.
  - apply (broadcast_length _ _ _ _ Hl Hrow).
  - intros j x y Hx Hy. apply (elementwise1_lookup _ _ _ _ _ _ _ Hl Hrow Hx Hy).
Qed.

(** X14. The projection [U[:, :rank].T]: for a non-empty [U] whose rows
    all have [c] entries and [k <= c], the transposed slice has [k] rows of
    as many entries as [U] has rows, and its entry [(j, i)] is the entry
    [(i, j)] of [U]. *)
Theorem projection_is_transposed_slice (u : matrix) (c k : nat) :
  u <> [] -> Forall (fun row => length row = c) u -> (k <= c)%nat ->
  length (transpose (slice_cols u (Z.of_nat k))) = k /\
  Forall (fun row => length row = length u) (transpose (slice_cols u (Z.of_nat k))) /\
  forall i j, (j < k)%nat ->
    entry (transpose (slice_cols u (Z.of_nat k))) j i = entry u i j.
Proof.
  intros Hne Hc Hk. unfold transpose, slice_cols. rewrite Nat2Z.id, transpose_aux_map.
  assert (Hn : length (default [] (head (map (take k) u))) = k).
  { destruct u as [|r u]; [congruence|]. apply Forall_cons in Hc as [Hr _].
    simpl. rewrite length_take. lia. }
  rewrite Hn.
  assert (Hcol : forall j, (j < k)%nat ->
            Forall (fun r : list float => (j < length r)%nat) (map (take k) u)).
  { intros j Hj. apply Forall_fmap. eapply Forall_impl; [exact Hc|].
    intros r Hr. simpl in *. rewrite length_take. lia. }
  split; [rewrite length_map, length_seq; reflexivity|]. split.
  - apply Forall_fmap, Forall_forall. intros j Hj. apply elem_of_seq in Hj. simpl.
    destruct (omap_lookup_column _ j (Hcol j ltac:(lia))) as [Hl _].
    rewrite Hl, length_map. reflexivity.
  - intros i j Hj. unfold entry at 1.
    rewrite list_lookup_fmap, lookup_seq_lt by assumption. simpl.
    destruct (omap_lookup_column _ j (Hcol j Hj)) as [_ Hi]. rewrite Hi.
    unfold entry. rewrite list_lookup_fmap. destruct (u !! i) as [r|]; [|reflexivity].
    simpl. apply lookup_take_lt. assumption.
Qed.

Section Further3.
Context {L : Library}.

(** X15. The data cell only allocates: when it returns, every object that
    was in the store is still there, unchanged, the output is as it was,
    and six new objects follow in the order [rng], [U], [X], [X_homo],
    [sigmas], [X_hetero]: the generator, four two-dimensional arrays and
    the one-dimensional [sigmas]. *)
Theorem data_cell_only_allocates (st st' : State) (d : Data) :
  create_data st = Ok (d, st') ->
  d = data_at (length (heap st)) /\
  stdout st' = stdout st /\
  exists s u x xh sg xt,
    heap st' = heap st ++
      [ORng s; ONd (Nd2 u); ONd (Nd2 x); ONd (Nd2 xh); ONd (Nd1 sg); ONd (Nd2 xt)].
Proof.
  destruct create_data_determined as [[v|e] [Ho _]]; rewrite Ho; [|discriminate].
  destruct v as [[[[[s u] x] xh] sg] xt]. intros [= <- <-].
  split; [reflexivity|]. split; [reflexivity|]. exists s, u, x, xh, sg, xt. reflexivity.
Qed.

(** X16. After the data cell and the grid cell the main loop finds what it
    reads: [n_components] is bound to the grid 0, 5, ..., 45, [X_homo] and
    [X_hetero] to two-dimensional arrays, the three objects are different,
    and whatever the store held before the two cells is untouched. *)
Theorem loop_starts_on_fresh_arrays (st s1 s2 : State) (d : Data) (nc : loc) :
  create_data st = Ok (d, s1) -> create_grid s1 = Ok (nc, s2) ->
  (exists ah at_, layout reference_grid (Nd2 ah) (Nd2 at_) d nc (heap s2)) /\
  (forall l o, heap st !! l = Some o -> heap s2 !! l = Some o) /\
  stdout s2 = stdout st.
Proof.
  destruct create_data_determined as [[v|e] [Ho _]]; rewrite Ho; [|discriminate].
  destruct v as [[[[[s u] x] xh] sg] xt]. intros [= <- <-].
  rewrite create_grid_run. intros [= <- <-]. cbn [heap stdout].
  split; [|split; [|reflexivity]].
  - exists xh, xt. unfold layout, data_at, data_objects. cbn [X_homo X_hetero].
    rewrite length_app. cbn [length].
    repeat split; try lia.
    + rewrite lookup_app_r by (rewrite length_app; cbn [length]; lia).
      rewrite length_app. cbn [length].
      replace (_ - _)%nat with 0%nat by lia. reflexivity.
    + rewrite <- app_assoc, lookup_app_r by lia.
      replace (_ - _)%nat with 3%nat by lia. reflexivity.
    + rewrite <- app_assoc, lookup_app_r by lia.
      replace (_ - _)%nat with 5%nat by lia. reflexivity.
  - intros l o Hl. rewrite <- app_assoc. apply lookup_app_l_Some. assumption.
Qed.

(** X17. Both datasets are built on the one signal matrix [X], from three
    consecutive draws of the generator: a normal draw [n1] for [X_homo], a
    uniform draw [u] for [sigmas] and a normal draw [n2] for [X_hetero].
    [sigmas] is [sigma * u + sigma / 2] entry by entry, and when [X], [n1]
    and [n2] have one shape with as many columns as [u] has entries, entry
    [(i, j)] of [X_homo] is [X[i][j] + sigma * n1[i][j]] and entry [(i, j)]
    of [X_hetero] is [X[i][j] + n2[i][j] * sigmas[j]]. *)
Theorem noise_is_added_to_one_signal (st st' : State) (d : Data) :
  create_data st = Ok (d, st') ->
  exists x xh sg xt s2 n1 s3 u s4 n2 s5,
    heap st' !! X d = Some (ONd (Nd2 x)) /\
    heap st' !! X_homo d = Some (ONd (Nd2 xh)) /\
    heap st' !! sigmas d = Some (ONd (Nd1 sg)) /\
    heap st' !! X_hetero d = Some (ONd (Nd2 xt)) /\
    heap st' !! rng d = Some (ORng s5) /\
    mt_randn s2 n_samples n_features = Ok (n1, s3) /\
    mt_rand s3 n_features = Ok (u, s4) /\
    mt_randn s4 n_samples n_features = Ok (n2, s5) /\
    sg = map (fun uj => PrimFloat.add (PrimFloat.mul sigma uj) (PrimFloat.div sigma 2)) u /\
    forall r c, shape x r c -> shape n1 r c -> shape n2 r c -> length u = c ->
      forall i j a, entry x i j = Some a ->
        (forall n, entry n1 i j = Some n ->
           entry xh i j = Some (PrimFloat.add a (PrimFloat.mul sigma n))) /\
        (forall n s, entry n2 i j = Some n -> sg !! j = Some s ->
           entry xt i j = Some (PrimFloat.add a (PrimFloat.mul n s))).
Proof.
  destruct create_data_determined as [[v|e] [Ho Hs]]; rewrite Ho; [|discriminate].
  destruct v as [[[[[s5 u0] x] xh] sg] xt].
  destruct Hs as (s2 & n1 & s3 & u & s4 & n2 & p & Hn1 & Hh & Hu & -> & Hn2 & Hp & Ht).
  intros [= <- <-].
  exists x, xh, (add_scalar1 (scalar_mul1 sigma u) (PrimFloat.div sigma 2)), xt,
         s2, n1, s3, u, s4, n2, s5.
  unfold data_at, data_objects. cbn [X X_homo sigmas X_hetero rng heap].
  rewrite !lookup_app_r by lia.
  replace (length (heap st) - length (heap st))%nat with 0%nat by lia.
  replace (length (heap st) + 2 - length (heap st))%nat with 2%nat by lia.
  replace (length (heap st) + 3 - length (heap st))%nat with 3%nat by lia.
  replace (length (heap st) + 4 - length (heap st))%nat with 4%nat by lia.
  replace (length (heap st) + 5 - length (heap st))%nat with 5%nat by lia.
  do 8 (split; [first [reflexivity | assumption]|]).
  split; [unfold add_scalar1, scalar_mul1; rewrite map_map; reflexivity|].
  intros r c [Hxr Hxc] [H1r H1c] [H2r H2c] Hul i j a Ha.
  unfold entry in Ha. destruct (x !! i) as [rx|] eqn:Hrx; [|discriminate].
  assert (Hlrx : length rx = c)
    by (eapply (proj1 (Forall_lookup _ _) Hxc); eassumption).
  assert (Hlsg : length (add_scalar1 (scalar_mul1 sigma u) (PrimFloat.div sigma 2)) = c)
    by (unfold add_scalar1, scalar_mul1; rewrite !length_map; assumption).
  split.
  - intros n Hn. unfold entry in Hn. destruct (n1 !! i) as [rn|] eqn:Hrn; [|discriminate].
    assert (Hlrn : length rn = c)
      by (eapply (proj1 (Forall_lookup _ _) H1c); eassumption).
    apply (elementwise2_entry _ x (scalar_mul2 sigma n1) xh i j rx
             (map (PrimFloat.mul sigma) rn)); try assumption.
    + unfold scalar_mul2. rewrite length_map. congruence.
    + unfold scalar_mul2. rewrite list_lookup_fmap, Hrn. reflexivity.
    + rewrite length_map. congruence.
    + rewrite list_lookup_fmap, Hn. reflexivity.
  - intros n s Hn Hsg. unfold entry in Hn.
    destruct (n2 !! i) as [rn|] eqn:Hrn; [|discriminate].
    assert (Hlrn : length rn = c)
      by (eapply (proj1 (Forall_lookup _ _) H2c); eassumption).
    destruct (elementwise21_row _ _ _ _ _ _ Hp Hrn ltac:(congruence))
      as (Hlp & pr & Hpr & Hlpr & Hent).
    apply (elementwise2_entry _ x p xt i j rx pr); try assumption.
    + congruence.
    + congruence.
    + apply (Hent j n s Hn Hsg).
Qed.

End Further3.

(** ** The theorems at work on the toy library *)

#[local] Existing Instance Toy.library.

(** The whole notebook on the toy library, from an empty store. *)
Example toy_notebook_selections :
  match selections_of (notebook Toy.empty) with
  | Ok [s1; s2] =>
      (n_components_pca s1, n_components_fa s1, n_components_pca_mle s1) = (10, 10, 49) /\
      length (pca_scores s2) = 10%nat
  | _ => False
  end.
Proof. vm_compute. split; reflexivity. Qed.

(** The toy runs return. *)
Lemma toy_analyse_returns :
  match analyse 6 3 "Homoscedastic Noise" ([[]; []], 0%nat, []) Toy.store with
  | Ok _ => True
  | Raise _ => False
  end.
Proof. vm_compute. exact I. Qed.

Lemma toy_shrunk_cov_score_returns :
  match shrunk_cov_score 3 Toy.store with Ok _ => True | Raise _ => False end.
Proof. vm_compute. exact I. Qed.

Lemma toy_main_loop_returns :
  match main_loop Toy.names 6 Toy.store with Ok _ => True | Raise _ => False end.
Proof. vm_compute. exact I. Qed.

Lemma compute_scores_aligned_witness :
  ReadOnly Toy.library /\
  heap Toy.store !! 6%nat = Some (ONd (NdI reference_grid)) /\
  heap Toy.store !! 3%nat = Some (ONd Toy.homo) /\
  match compute_scores 6 3 Toy.store with
  | Ok ((pca_scores, fa_scores), st') =>
      st' = Toy.store /\
      length pca_scores = length reference_grid /\
      length fa_scores = length reference_grid /\
      forall (i : nat) n, reference_grid !! i = Some n ->
        exists sp sf,
          pca_scores !! i = Some sp /\ scored pca_with Toy.homo n sp /\
          fa_scores !! i = Some sf /\ scored fa_with Toy.homo n sf
  | Raise e =>
      exists n, n ∈ reference_grid /\
        (cross_val_score (pca_with n) Toy.homo = Raise e \/
         cross_val_score (fa_with n) Toy.homo = Raise e)
  end.
Proof.
  split; [exact Toy_readonly|]. split; [reflexivity|]. split; [reflexivity|].
  apply (compute_scores_aligned (RO := Toy_readonly)); reflexivity.
Defined.

Lemma best_count_is_argmax_witness :
  ReadOnly Toy.library /\
  heap Toy.store !! 6%nat = Some (ONd (NdI reference_grid)) /\
  heap Toy.store !! 3%nat = Some (ONd Toy.homo) /\
  exists data' i' sel' st',
    analyse 6 3 "Homoscedastic Noise" ([[]; []], 0%nat, []) Toy.store
      = Ok ((data', i', sel'), st') /\
    exists s ip ifa,
      sel' = [] ++ [s] /\
      Forall2 (scored pca_with Toy.homo) reference_grid (pca_scores s) /\
      Forall2 (scored fa_with Toy.homo) reference_grid (fa_scores s) /\
      np_argmax (pca_scores s) = Ok ip /\ first_maximum (pca_scores s) ip /\
      reference_grid !! ip = Some (n_components_pca s) /\
      np_argmax (fa_scores s) = Ok ifa /\ first_maximum (fa_scores s) ifa /\
      reference_grid !! ifa = Some (n_components_fa s) /\
      stdout st' = stdout Toy.store ++ report "Homoscedastic Noise" s.
Proof.
  split; [exact Toy_readonly|]. split; [reflexivity|]. split; [reflexivity|].
  destruct (analyse 6 3 "Homoscedastic Noise" ([[]; []], 0%nat, []) Toy.store)
    as [[[[data' i'] sel'] st']|e] eqn:E.
  2:{ pose proof toy_analyse_returns as R. rewrite E in R. destruct R. }
  exists data', i', sel', st'. split; [reflexivity|].
  apply (best_count_is_argmax (RO := Toy_readonly) Toy.store st' 6%nat 3%nat
           "Homoscedastic Noise" reference_grid Toy.homo [[]; []] data' 0%nat i' [] sel');
    [reflexivity | reflexivity | exact E].
Defined.

Lemma shrunk_cov_score_search_witness :
  ReadOnly Toy.library /\
  heap Toy.store !! 3%nat = Some (ONd Toy.homo) /\
  length (shrinkages (L := Toy.library)) = 30%nat /\
  exists score,
    shrunk_cov_score 3 Toy.store = Ok (score, Toy.store) /\
    exists best folds,
      GridSearchCV_fit (ShrunkCovariance 0.1) "shrinkage" shrinkages Toy.homo
        = Ok (best, Toy.homo) /\
      cross_val_score best Toy.homo = Ok (folds, Toy.homo) /\
      score = np_mean folds.
Proof.
  split; [exact Toy_readonly|]. split; [reflexivity|].
  destruct (shrunk_cov_score_search (RO := Toy_readonly) Toy.store 3%nat Toy.homo eq_refl)
    as (Hlen & _ & _ & _ & H).
  split; [exact Hlen|].
  destruct (shrunk_cov_score 3 Toy.store) as [[score st']|e] eqn:E.
  2:{ pose proof toy_shrunk_cov_score_returns as R. rewrite E in R. destruct R. }
  destruct H as (-> & H). exists score. split; [reflexivity | exact H].
Defined.

Lemma no_entity_is_mutated_witness :
  ReadOnly Toy.library /\
  exists g st',
    main_loop Toy.names 6 Toy.store = Ok (g, st') /\
    (forall l, l ∈ [X Toy.names; X_homo Toy.names; X_hetero Toy.names;
                    sigmas Toy.names; 6%nat] ->
       heap st' !! l = heap Toy.store !! l) /\
    g_X g = X_hetero Toy.names.
Proof.
  split; [exact Toy_readonly|].
  destruct (main_loop Toy.names 6 Toy.store) as [[g st']|e] eqn:E.
  2:{ pose proof toy_main_loop_returns as R. rewrite E in R. destruct R. }
  exists g, st'. split; [reflexivity|].
  destruct (no_entity_is_mutated (RO := Toy_readonly) Toy.names 6%nat Toy.store)
    as [_ H].
  destruct (H g st' E) as (Hl & _ & _ & HX & _). split; assumption.
Defined.

Lemma ties_select_smallest_count_witness :
  np_arange 0 n_features 5 = Ok reference_grid /\
  heap Toy.store !! 6%nat = Some (ONd (NdI reference_grid)) /\
  length Toy.tied = length reference_grid /\
  best_by_cv 6 Toy.tied Toy.store = Ok (10, Toy.store) /\
  exists n ib,
    best_by_cv 6 Toy.tied Toy.store = Ok (n, Toy.store) /\
    np_argmax Toy.tied = Ok ib /\ reference_grid !! ib = Some n /\
    forall (j : nat) sj m,
      Toy.tied !! j = Some sj ->
      (forall (k : nat) x, Toy.tied !! k = Some x -> PrimFloat.leb x sj = true) ->
      reference_grid !! j = Some m ->
      (ib <= j)%nat /\ n <= m /\
      exists sb, Toy.tied !! ib = Some sb /\ PrimFloat.eqb sb sj = true.
Proof.
  split; [reflexivity|]. split; [reflexivity|]. split; [reflexivity|].
  split; [reflexivity|].
  apply (ties_select_smallest_count Toy.store 6%nat reference_grid Toy.tied);
    reflexivity.
Defined.

(** ** The further properties at work *)

Lemma nan_score_is_selected_witness :
  isnan nan = true /\
  np_argmax [1; nan; 3; nan]%float = Ok 1%nat /\
  best_by_cv 6 [1; nan; 3; nan]%float Toy.store = Ok (5, Toy.store).
Proof.
  split; [reflexivity|].
  destruct (nan_score_is_selected [1; nan; 3; nan]%float 1%nat nan eq_refl eq_refl)
    as [H1 H2].
  - intros [|k] y Hk Hy; [injection Hy as <-; reflexivity | lia].
  - split; [exact H1|]. apply (H2 Toy.store 6%nat reference_grid 5); reflexivity.
Defined.

Lemma best_by_cv_outcomes_witness :
  heap Toy.store !! 6%nat = Some (ONd (NdI reference_grid)) /\
  match best_by_cv 6 Toy.tied Toy.store with
  | Ok (n, st') =>
      st' = Toy.store /\ Toy.tied <> [] /\ n ∈ reference_grid /\
      exists i : nat, np_argmax Toy.tied = Ok i /\ reference_grid !! i = Some n
  | Raise e =>
      (Toy.tied = [] /\ e = ValueError) \/
      (Toy.tied <> [] /\ (length reference_grid < length Toy.tied)%nat /\ e = IndexError)
  end.
Proof.
  split; [reflexivity|].
  apply (best_by_cv_outcomes Toy.store 6%nat reference_grid Toy.tied). reflexivity.
Defined.

Lemma empty_grid_fails_selection_witness :
  heap (mkState [ONd (NdI [])] []) !! 0%nat = Some (ONd (NdI [])) /\
  analyse 0 0 "Homoscedastic Noise" ([[]; []], 0%nat, []) (mkState [ONd (NdI [])] [])
    = Raise ValueError.
Proof.
  split; [reflexivity|].
  apply (empty_grid_fails_selection (mkState [ONd (NdI [])] []) 0%nat 0%nat).
  reflexivity.
Defined.

Lemma first_failure_stops_sweep_witness :
  (forall m, m ∈ [0; 5; 10; 15; 20; 25; 30; 35; 40] -> exists sp sf,
     @cross_val_score Picky.library (pca_with m) Picky.data = Ok (sp, Picky.data) /\
     @cross_val_score Picky.library (fa_with m) Picky.data = Ok (sf, Picky.data)) /\
  @cross_val_score Picky.library (pca_with 45) Picky.data = Raise ValueError /\
  compute_scores (L := Picky.library) 0 1 Picky.store = Raise ValueError.
Proof.
  assert (Hpre : forall m, m ∈ [0; 5; 10; 15; 20; 25; 30; 35; 40] -> exists sp sf,
     @cross_val_score Picky.library (pca_with m) Picky.data = Ok (sp, Picky.data) /\
     @cross_val_score Picky.library (fa_with m) Picky.data = Ok (sf, Picky.data)).
  { intros m Hm.
    repeat (apply elem_of_cons in Hm as [->|Hm]; [eexists _, _; split; reflexivity|]).
    apply elem_of_nil in Hm. contradiction. }
  split; [exact Hpre|]. split; [reflexivity|].
  apply (first_failure_stops_sweep (L := Picky.library) Picky.store 0%nat 1%nat Picky.data
           [0; 5; 10; 15; 20; 25; 30; 35; 40] 45 [] ValueError);
    [reflexivity | reflexivity | exact Hpre | left; reflexivity].
Defined.

Lemma report_identifies_counts_witness :
  report "Heteroscedastic Noise" (mkSelection [1]%float [2]%float 40 10 38)
    = report "Heteroscedastic Noise" (mkSelection [] [] 40 10 38) /\
  n_components_pca (mkSelection [1]%float [2]%float 40 10 38)
    = n_components_pca (mkSelection [] [] 40 10 38).
Proof.
  split; [reflexivity|].
  apply (report_identifies_counts "Heteroscedastic Noise" "Heteroscedastic Noise"
           (mkSelection [1]%float [2]%float 40 10 38) (mkSelection [] [] 40 10 38)).
  reflexivity.
Defined.

Lemma pass_appends_eight_traces_witness :
  exists data' i' sel' st',
    analyse 6 3 "Homoscedastic Noise" ([[]; []], 0%nat, []) Toy.store
      = Ok ((data', i', sel'), st') /\
    exists s ts,
      sel' = [s] /\ i' = 1%nat /\ data' !! 0%nat = Some ts /\ length ts = 8%nat /\
      map sc_name ts = trace_names s /\
      stdout st' = report "Homoscedastic Noise" s.
Proof.
  destruct (analyse 6 3 "Homoscedastic Noise" ([[]; []], 0%nat, []) Toy.store)
    as [[[[data' i'] sel'] st']|e] eqn:E.
  2:{ pose proof toy_analyse_returns as R. rewrite E in R. destruct R. }
  exists data', i', sel', st'. split; [reflexivity|].
  destruct (pass_appends_eight_traces 6%nat 3%nat "Homoscedastic Noise" [[]; []] data'
              0%nat i' [] sel' Toy.store st' E)
    as (s & ts & row & Hsel & Hi & Hrow & Hd & _ & _ & Hlen & Hn & _ & _ & Ho).
  injection Hrow as <-. exists s, ts. auto 10.
Defined.


Lemma traces_have_matching_lengths_witness :
  ReadOnly Toy.library /\
  exists data' i' sel' st',
    analyse 6 3 "Homoscedastic Noise" ([[]; []], 0%nat, []) Toy.store
      = Ok ((data', i', sel'), st') /\
    exists ts,
      data' !! 0%nat = Some ts /\ length ts = 8%nat /\
      Forall (fun t => x_length (heap st') (sc_x t) = Some (length (sc_y t))) ts.
Proof.
  split; [exact Toy_readonly|].
  destruct (analyse 6 3 "Homoscedastic Noise" ([[]; []], 0%nat, []) Toy.store)
    as [[[[data' i'] sel'] st']|e] eqn:E.
  2:{ pose proof toy_analyse_returns as R. rewrite E in R. destruct R. }
  exists data', i', sel', st'. split; [reflexivity|].
  destruct (traces_have_matching_lengths (RO := Toy_readonly) 6%nat 3%nat
              "Homoscedastic Noise" [[]; []] data' 0%nat i' [] sel' Toy.store st'
              reference_grid Toy.homo eq_refl eq_refl E)
    as (row & ts & Hrow & Hd & Hlen & Hall).
  injection Hrow as <-. exists ts. auto.
Defined.

Lemma markers_and_baselines_witness :
  ReadOnly Toy.library /\
  exists data' i' sel' st',
    analyse 6 3 "Homoscedastic Noise" ([[]; []], 0%nat, []) Toy.store
      = Ok ((data', i', sel'), st') /\
    exists s lo hi v w,
      sel' = [s] /\
      py_min_float (pca_scores s) = Ok lo /\ py_max_float (fa_scores s) = Ok hi /\
      data' !! 0%nat =
        Some (pass_traces 6 s [PrimFloat.sub lo 1; PrimFloat.add hi 1]
                (XList [0; 45]) [v; v] (XList [0; 45]) [w; w]).
Proof.
  split; [exact Toy_readonly|].
  destruct (analyse 6 3 "Homoscedastic Noise" ([[]; []], 0%nat, []) Toy.store)
    as [[[[data' i'] sel'] st']|e] eqn:E.
  2:{ pose proof toy_analyse_returns as R. rewrite E in R. destruct R. }
  exists data', i', sel', st'. split; [reflexivity|].
  destruct (markers_and_baselines (RO := Toy_readonly) 6%nat 3%nat
              "Homoscedastic Noise" [[]; []] data' 0%nat i' [] sel' Toy.store st'
              reference_grid Toy.homo eq_refl eq_refl E)
    as (s & lo & hi & v & w & gmin & gmax & row & Hsel & Hlo & Hhi & _ & _ & Hmin & Hmax
        & Hb & _ & _ & Hrow & Hd).
  injection Hrow as <-.
  assert (gmin = 0) as ->.
  { pose proof (proj1 (Hb 0 ltac:(left))) as H0. unfold reference_grid in Hmin.
    repeat (apply elem_of_cons in Hmin as [->|Hmin]; [lia|]).
    apply elem_of_nil in Hmin. contradiction. }
  assert (gmax = 45) as ->.
  { pose proof (proj2 (Hb 45 ltac:(unfold reference_grid; do 9 right; left))) as H45.
    unfold reference_grid in Hmax.
    repeat (apply elem_of_cons in Hmax as [->|Hmax]; [lia|]).
    apply elem_of_nil in Hmax. contradiction. }
  exists s, lo, hi, v, w. auto.
Defined.

Lemma cv_counts_lie_on_grid_witness :
  ReadOnly Toy.library /\
  exists data' i' sel' st',
    analyse 6 3 "Homoscedastic Noise" ([[]; []], 0%nat, []) Toy.store
      = Ok ((data', i', sel'), st') /\
    exists s,
      sel' = [s] /\
      (0 <= n_components_pca s <= 45 /\ n_components_pca s mod 5 = 0) /\
      (0 <= n_components_fa s <= 45 /\ n_components_fa s mod 5 = 0).
Proof.
  split; [exact Toy_readonly|].
  destruct (analyse 6 3 "Homoscedastic Noise" ([[]; []], 0%nat, []) Toy.store)
    as [[[[data' i'] sel'] st']|e] eqn:E.
  2:{ pose proof toy_analyse_returns as R. rewrite E in R. destruct R. }
  exists data', i', sel', st'. split; [reflexivity|].
  apply (cv_counts_lie_on_grid (RO := Toy_readonly) 6%nat 3%nat
           "Homoscedastic Noise" [[]; []] data' 0%nat i' [] sel' Toy.store st'
           Toy.homo eq_refl eq_refl E).
Defined.

Lemma main_loop_fills_both_rows_witness :
  exists g st',
    main_loop Toy.names 6 Toy.store = Ok (g, st') /\
    exists s1 s2 r0 r1,
      g_selected g = [s1; s2] /\ g_traces g = [r0; r1] /\ g_i g = 2%nat /\
      map sc_name r0 = trace_names s1 /\ map sc_name r1 = trace_names s2 /\
      stdout st' = stdout Toy.store ++ report "Homoscedastic Noise" s1
                                   ++ report "Heteroscedastic Noise" s2 /\
      forall (k : nat) title s, (2 <= k)%nat -> figure g k title s = Raise IndexError.
Proof.
  destruct (main_loop Toy.names 6 Toy.store) as [[g st']|e] eqn:E.
  2:{ pose proof toy_main_loop_returns as R. rewrite E in R. destruct R. }
  exists g, st'. split; [reflexivity|].
  apply (main_loop_fills_both_rows Toy.names 6%nat Toy.store st' g E).
Defined.

Lemma passes_are_independent_witness :
  ReadOnly Toy.library /\
  6%nat <> X_hetero Toy.names /\
  exists g st',
    main_loop Toy.names 6 Toy.store = Ok (g, st') /\
    exists s1 s2 da sx,
      g_selected g = [s1; s2] /\
      analyse 6 (X_hetero Toy.names) "Heteroscedastic Noise" ([[]; []], 0%nat, []) Toy.store
        = Ok ((da, 1%nat, [s2]), sx).
Proof.
  split; [exact Toy_readonly|]. split; [discriminate|].
  destruct (main_loop Toy.names 6 Toy.store) as [[g st']|e] eqn:E.
  2:{ pose proof toy_main_loop_returns as R. rewrite E in R. destruct R. }
  exists g, st'. split; [reflexivity|].
  apply (passes_are_independent (RO := Toy_readonly) Toy.names 6%nat Toy.store st' g
           reference_grid (Nd2 [[2; 2]; [3; 5]]%float));
    [discriminate | reflexivity | reflexivity | exact E].
Defined.

(** The toy notebook and its data cell return. *)
Lemma toy_notebook_returns :
  match notebook Toy.empty with Ok _ => True | Raise _ => False end.
Proof.
  pose proof toy_notebook_selections as R.
  destruct (notebook Toy.empty) as [r|e]; [exact I | exact R].
Qed.

Lemma toy_create_data_returns :
  match create_data Toy.empty with Ok _ => True | Raise _ => False end.
Proof.
  pose proof toy_notebook_returns as R. rewrite notebook_unfold in R.
  destruct (create_data Toy.empty) as [r|e]; [exact I | exact R].
Qed.

Lemma notebook_figures_witness :
  exists g f1 f2 st',
    notebook Toy.empty = Ok ((g, f1, f2), st') /\
    exists s1 s2,
      g_selected g = [s1; s2] /\
      g_traces g = [fig_data f1; fig_data f2] /\
      map sc_name (fig_data f1) = trace_names s1 /\
      map sc_name (fig_data f2) = trace_names s2 /\
      fig_title f1 = "Homoscedastic Noise"%string /\
      fig_title f2 = "Heteroscedastic Noise"%string /\
      stdout st' = report "Homoscedastic Noise" s1 ++ report "Heteroscedastic Noise" s2.
Proof.
  destruct (notebook Toy.empty) as [[[[g f1] f2] st']|e] eqn:E.
  2:{ pose proof toy_notebook_returns as R. rewrite E in R. destruct R. }
  exists g, f1, f2, st'. split; [reflexivity|].
  destruct (notebook_figures Toy.empty st' g f1 f2 E)
    as (s1 & s2 & Hs & Ht & H1 & H2 & [= Ht1 _ _] & [= Ht2 _ _] & Ho).
  exists s1, s2. auto 10.
Defined.

Lemma data_cell_only_allocates_witness :
  exists d st',
    create_data Toy.empty = Ok (d, st') /\
    d = data_at 0 /\ stdout st' = [] /\ length (heap st') = 6%nat.
Proof.
  destruct (create_data Toy.empty) as [[d st']|e] eqn:E.
  2:{ pose proof toy_create_data_returns as R. rewrite E in R. destruct R. }
  exists d, st'. split; [reflexivity|].
  destruct (data_cell_only_allocates Toy.empty st' d E)
    as (Hd & Ho & s & u & x & xh & sg & xt & Hh).
  split; [exact Hd|]. split; [exact Ho|]. rewrite Hh. reflexivity.
Defined.

Lemma loop_starts_on_fresh_arrays_witness :
  exists d s1 nc s2,
    create_data Toy.empty = Ok (d, s1) /\ create_grid s1 = Ok (nc, s2) /\
    (exists ah at_, layout reference_grid (Nd2 ah) (Nd2 at_) d nc (heap s2)) /\
    stdout s2 = [].
Proof.
  destruct (create_data Toy.empty) as [[d s1]|e] eqn:E.
  2:{ pose proof toy_create_data_returns as R. rewrite E in R. destruct R. }
  exists d, s1, (length (heap s1)),
         (mkState (heap s1 ++ [ONd (NdI reference_grid)]) (stdout s1)).
  split; [reflexivity|]. split; [apply create_grid_run|].
  destruct (loop_starts_on_fresh_arrays Toy.empty s1 _ d _ E (create_grid_run s1))
    as (Hl & _ & Ho).
  split; [exact Hl | exact Ho].
Defined.

Lemma noise_is_added_to_one_signal_witness :
  exists d st',
    create_data Toy.empty = Ok (d, st') /\
    exists x xh xt,
      heap st' !! X d = Some (ONd (Nd2 x)) /\
      heap st' !! X_homo d = Some (ONd (Nd2 xh)) /\
      heap st' !! X_hetero d = Some (ONd (Nd2 xt)).
Proof.
  destruct (create_data Toy.empty) as [[d st']|e] eqn:E.
  2:{ pose proof toy_create_data_returns as R. rewrite E in R. destruct R. }
  exists d, st'. split; [reflexivity|].
  destruct (noise_is_added_to_one_signal Toy.empty st' d E)
    as (x & xh & sg & xt & s2 & n1 & s3 & u & s4 & n2 & s5 & HX & Hh & _ & Ht & _).
  exists x, xh, xt. auto.
Defined.

Lemma projection_is_transposed_slice_witness :
  length (transpose (slice_cols [[1; 2; 3]; [4; 5; 6]]%float 2)) = 2%nat /\
  entry (transpose (slice_cols [[1; 2; 3]; [4; 5; 6]]%float 2)) 1 0
    = entry [[1; 2; 3]; [4; 5; 6]]%float 0 1.
Proof.
  destruct (projection_is_transposed_slice [[1; 2; 3]; [4; 5; 6]]%float 3 2)
    as (Hl & _ & He).
  - discriminate.
  - repeat constructor.
  - lia.
  - split; [exact Hl|]. apply (He 0%nat 1%nat). lia.
Defined.
